(** * Jupiter-Bot: giveaway lifecycle, premium-slot entitlement and invite
      attribution

    A shallow embedding of the stateful core of [main.py]:
    - [calculate_user_slots] / [update_user_slots]  (premium slots),
    - [GiveawayJoinView.join_giveaway] and the effective (last) definition of
      [end_giveaway]  (giveaways),
    - [handle_member_join_invite_tracking] and
      [handle_member_leave_invite_tracking]  (invite tracking).

    Conventions.  Python dictionaries keyed by [str(some_id)] are maps keyed
    by the integer identifier itself ([str] is injective on integers).  A
    dictionary whose iteration order is observed (the participants of a
    giveaway) is an insertion-ordered association list.  A dictionary used as
    a record with optional keys is a Rocq record of [option] fields.  Module
    level dictionaries are threaded explicitly as state; an exception leaves
    the in-memory mutations made before it in place. *)

From stdpp Require Import gmap strings list fin_maps.

Local Open Scope Z_scope.

(** Python exceptions that the modelled code can raise. *)
Inductive exn :=
| KeyError | UnboundLocalError | ValueError
| TypeError | AttributeError | HTTPException.

(* ===================================================================== *)
(** * Premium slots *)
(* ===================================================================== *)

Module Slots.

(** A key of a dictionary of [BOT_CONFIG].  The built-in tables and the
    configuration dialog use the role identifier itself, an integer;
    [json.load] returns every key of [bot_config.json] as a string, and
    [BOT_CONFIG.update] puts the loaded tables in the place of the built-in
    ones. *)
Inductive dict_key := IntKey (n : Z) | StrKey (s : string).

#[export] Instance dict_key_eq_dec : EqDecision dict_key.
Proof. solve_decision. Defined.

#[export] Instance dict_key_countable : Countable dict_key.
Proof.
  refine (inj_countable'
            (fun k => match k with IntKey n => inl n | StrKey s => inr s end)
            (fun x => match x with inl n => IntKey n | inr s => StrKey s end) _).
  by intros [].
Defined.

(** An entry of [BOT_CONFIG["slot_roles"]]: [{"name": ..., "slots": n}]. *)
Record slot_role := SlotRole { sr_name : string; sr_slots : Z }.

(** The two slot tables of [BOT_CONFIG]; a missing key reads as the empty
    table ([BOT_CONFIG.get(key, {})]). *)
Record bot_config := BotConfig {
  slot_roles : gmap dict_key slot_role;
  auto_slot_roles : gmap dict_key Z
}.

(** A value of [premium_slots]; records created when an auction consumes a
    slot have no ["manual_slots"] key, which is read with [.get(.., 0)]. *)
Record slot_record := SlotRecord {
  total_slots : Z;
  used_slots : Z;
  manual_slots : option Z
}.

(** [calculate_user_slots(member)]: two passes over [member.roles]; the
    tables are subscripted with [role.id], an integer. *)
Definition calculate_user_slots (cfg : bot_config) (roles : list Z) : Z :=
  let total_slots :=
    foldl (fun acc role_id =>
             match slot_roles cfg !! IntKey role_id with
             | Some sr => acc + sr_slots sr
             | None => acc
             end) 0 roles in
  foldl (fun acc role_id =>
           match auto_slot_roles cfg !! IntKey role_id with
           | Some n => acc + n
           | None => acc
           end) total_slots roles.

(** [update_user_slots(member)] acting on the [premium_slots] dictionary. *)
Definition update_user_slots (cfg : bot_config) (user_id : Z) (roles : list Z)
    (premium_slots : gmap Z slot_record) : gmap Z slot_record :=
  let calculated_slots := calculate_user_slots cfg roles in
  let r0 := default (SlotRecord 0 0 (Some 0)) (premium_slots !! user_id) in
  let manual := default 0 (manual_slots r0) in
  let r1 := SlotRecord (calculated_slots + manual) (used_slots r0) (manual_slots r0) in
  let r2 := if decide (used_slots r1 > total_slots r1)
            then SlotRecord (total_slots r1) (total_slots r1) (manual_slots r1)
            else r1 in
  <[user_id := r2]> premium_slots.

(** The slot count one role contributes: what the two tables hold under the
    role's identifier. *)
Definition role_grant (cfg : bot_config) (role_id : Z) : Z :=
  default 0 (sr_slots <$> slot_roles cfg !! IntKey role_id)
  + default 0 (auto_slot_roles cfg !! IntKey role_id).

(** The specification's [roleDerivedSlots]: the sum of the table entries of
    the roles held. *)
Definition role_derived_slots (cfg : bot_config) (roles : list Z) : Z :=
  foldr Z.add 0 (role_grant cfg <$> roles).

(** Slot counts of both tables are non-negative (the configuration dialog
    rejects negative counts; the built-in table is positive). *)
Definition table_nonneg (cfg : bot_config) : Prop :=
  (∀ k sr, slot_roles cfg !! k = Some sr → 0 ≤ sr_slots sr)
  ∧ (∀ k n, auto_slot_roles cfg !! k = Some n → 0 ≤ n).

(** Every key of both tables is a string, as after a restart that read
    [bot_config.json]. *)
Definition string_keyed (cfg : bot_config) : Prop :=
  (∀ n, slot_roles cfg !! IntKey n = None)
  ∧ (∀ n, auto_slot_roles cfg !! IntKey n = None).

(** A configuration and a stored record for concrete checks: role 1 grants
    2 slots, role 2 grants 3, and user 7 had used 9 of 12 slots. *)
Definition cfg_example : bot_config :=
  BotConfig {[IntKey 1 := SlotRole "2 boosts" 2]} {[IntKey 2 := 3]}.

Definition premium_slots_example : gmap Z slot_record :=
  {[7 := SlotRecord 12 9 (Some 1)]}.

(** The same tables as [json.load] returns them. *)
Definition cfg_reloaded_example : bot_config :=
  BotConfig {[StrKey "1" := SlotRole "2 boosts" 2]} {[StrKey "2" := 3]}.

(** A table with a negative count, which the configuration dialog would
    refuse. *)
Definition cfg_negative_example : bot_config :=
  BotConfig ∅ {[IntKey 1 := -4]}.

End Slots.

(* ===================================================================== *)
(** * Giveaways *)
(* ===================================================================== *)

Module Giveaway.

(** An insertion-ordered dictionary, as iterated by [.items()] and
    [.keys()]: assignment to an existing key keeps its position, assignment
    to a new key appends. *)
Section PyDict.
Context {V : Type}.

Fixpoint dict_get (k : Z) (d : list (Z * V)) : option V :=
  match d with
  | [] => None
  | (k', v) :: d' => if decide (k = k') then Some v else dict_get k d'
  end.

Fixpoint dict_set (k : Z) (v : V) (d : list (Z * V)) : list (Z * V) :=
  match d with
  | [] => [(k, v)]
  | (k', v') :: d' =>
      if decide (k = k') then (k, v) :: d' else (k', v') :: dict_set k v d'
  end.

Definition dict_keys (d : list (Z * V)) : list Z := fst <$> d.

(** Dictionaries have pairwise distinct keys. *)
Definition dict_wf (d : list (Z * V)) : Prop := NoDup (dict_keys d).
End PyDict.

(** [giveaway["status"]] *)
Inductive status := Creating | Active | Ended.

#[export] Instance status_eq_dec : EqDecision status.
Proof. solve_decision. Defined.

(** An element of [giveaway["extra_entry_roles"]]. *)
Record role_config := RoleConfig { role_id : Z; entries : Z }.

(** A value of [giveaways_data].  [winners_list] is absent until
    [end_giveaway] stores it. *)
Record giveaway := Mk {
  name : string;
  prizes : string;
  host_id : Z;
  channel_id : Z;
  winners : Z;
  required_roles : list Z;
  bypass_roles : list Z;
  required_level : Z;
  extra_entry_roles : list role_config;
  participants : list (Z * Z);
  gstatus : status;
  end_time : Z;
  winners_list : option (list Z)
}.

Definition set_participants (p : list (Z * Z)) (g : giveaway) : giveaway :=
  Mk (name g) (prizes g) (host_id g) (channel_id g) (winners g)
     (required_roles g) (bypass_roles g) (required_level g)
     (extra_entry_roles g) p (gstatus g) (end_time g) (winners_list g).

Definition set_status (s : status) (g : giveaway) : giveaway :=
  Mk (name g) (prizes g) (host_id g) (channel_id g) (winners g)
     (required_roles g) (bypass_roles g) (required_level g)
     (extra_entry_roles g) (participants g) s (end_time g) (winners_list g).

Definition set_winners_list (w : list Z) (g : giveaway) : giveaway :=
  Mk (name g) (prizes g) (host_id g) (channel_id g) (winners g)
     (required_roles g) (bypass_roles g) (required_level g)
     (extra_entry_roles g) (participants g) (gstatus g) (end_time g) (Some w).

Definition set_end_time (t : Z) (g : giveaway) : giveaway :=
  Mk (name g) (prizes g) (host_id g) (channel_id g) (winners g)
     (required_roles g) (bypass_roles g) (required_level g)
     (extra_entry_roles g) (participants g) (gstatus g) t (winners_list g).

(** ** Joining *)

(** What the join button answers. *)
Inductive join_result :=
| NotActive
| MissingRequiredRole
| LevelTooLow
| Joined (n : Z).

(** [any(role_id in user_role_ids for role_id in roles)] *)
Definition any_role_in (roles user_role_ids : list Z) : bool :=
  existsb (fun r => bool_decide (r ∈ user_role_ids)) roles.

(** The loop over [extra_entry_roles] with its [break]: the first
    configuration, in list order, whose role the user holds. *)
Definition first_extra_entry (rules : list role_config) (user_role_ids : list Z)
    : option role_config :=
  find (fun rc => bool_decide (role_id rc ∈ user_role_ids)) rules.

(** The two statements that add the user to [giveaway["participants"]]. *)
Definition add_participant (g : giveaway) (user_id : Z) (user_role_ids : list Z)
    : list (Z * Z) :=
  let p1 := match dict_get user_id (participants g) with
            | Some _ => participants g
            | None => dict_set user_id 1 (participants g)
            end in
  match first_extra_entry (extra_entry_roles g) user_role_ids with
  | Some rc => dict_set user_id (entries rc) p1
  | None => p1
  end.

(** [GiveawayJoinView.join_giveaway].  [user_level] is
    [calculate_level(xp)] of the clicking user, computed by the caller.
    The handler reads no clock. *)
Definition join_giveaway (giveaways_data : gmap string giveaway)
    (giveaway_id : string) (user_id : Z) (user_role_ids : list Z)
    (user_level : Z) : gmap string giveaway * join_result :=
  match giveaways_data !! giveaway_id with
  | None => (giveaways_data, NotActive)
  | Some g =>
    if negb (bool_decide (gstatus g = Active)) then (giveaways_data, NotActive)
    else if negb (bool_decide (required_roles g = []))
            && negb (any_role_in (required_roles g) user_role_ids)
    then (giveaways_data, MissingRequiredRole)
    else if bool_decide (required_level g > 0)
            && bool_decide (user_level < required_level g)
            && (if bool_decide (bypass_roles g = []) then true
                else negb (any_role_in (bypass_roles g) user_role_ids))
    then (giveaways_data, LevelTooLow)
    else
      let p := add_participant g user_id user_role_ids in
      (<[giveaway_id := set_participants p g]> giveaways_data,
       Joined (default 0 (dict_get user_id p)))
  end.

(** ** Ending *)

(** [random.sample(population, k)] picks [k] tickets at pairwise distinct
    positions and returns them in selection order.  The random source is an
    explicit list of draws: each draw selects a position among the tickets
    not yet taken. *)
Fixpoint sample_from {A} (pool : list A) (k : nat) (draws : list nat) : list A :=
  match k with
  | O => []
  | S k' =>
      let j := (hd 0%nat draws `mod` length pool)%nat in
      match pool !! j with
      | Some x => x :: sample_from (delete j pool) k' (tl draws)
      | None => []
      end
  end.

(** [random.sample] raises [ValueError] when the sample is larger than the
    population or negative. *)
Definition random_sample {A} (population : list A) (k : Z) (draws : list nat)
    : exn + list A :=
  if bool_decide (k < 0) || bool_decide (Z.of_nat (length population) < k)
  then inl ValueError
  else inr (sample_from population (Z.to_nat k) draws).

(** [weighted_participants]: [[user_id] * entries] for each participant in
    dictionary order ([[x] * n] is empty for [n <= 0]). *)
Definition weighted_participants (p : list (Z * Z)) : list Z :=
  p ≫= (fun '(user_id, n) => replicate (Z.to_nat n) user_id).

(** The "Remove duplicates" loop: keep the first occurrence of each winner. *)
Fixpoint remove_duplicates (winners unique_winners : list Z) (seen : gset Z)
    : list Z :=
  match winners with
  | [] => unique_winners
  | w :: ws =>
      if decide (w ∈ seen) then remove_duplicates ws unique_winners seen
      else remove_duplicates ws (unique_winners ++ [w]) ({[w]} ∪ seen)
  end.

(** How a call of [end_giveaway] finishes. *)
Inductive end_result :=
| AlreadyEnded                  (* guard: missing or not active *)
| NoChannel                     (* channel not found *)
| NoParticipants                (* "No participants joined" announced *)
| Winners (unique_winners : list Z)
| Raised (e : exn).

(** [end_giveaway(giveaway_id, guild)], the definition in force (the later
    of the two in the module).  [channel_found] is whether
    [guild.get_channel] resolves the giveaway's channel. *)
Definition end_giveaway (giveaways_data : gmap string giveaway)
    (giveaway_id : string) (channel_found : bool) (draws : list nat)
    : gmap string giveaway * end_result :=
  match giveaways_data !! giveaway_id with
  | None => (giveaways_data, AlreadyEnded)
  | Some g =>
    if negb (bool_decide (gstatus g = Active)) then (giveaways_data, AlreadyEnded)
    else
      let g1 := set_status Ended g in
      let data1 := <[giveaway_id := g1]> giveaways_data in
      if negb channel_found then (data1, NoChannel)
      else if bool_decide (participants g1 = []) then (data1, NoParticipants)
      else
        let pool := weighted_participants (participants g1) in
        let winner_count :=
          Z.min (winners g1) (Z.of_nat (length (participants g1))) in
        match random_sample pool winner_count draws with
        | inl e => (data1, Raised e)
        | inr ws =>
            let unique_winners := remove_duplicates ws [] ∅ in
            (<[giveaway_id := set_winners_list unique_winners g1]> data1,
             Winners unique_winners)
        end
  end.

(** The earlier definition of [end_giveaway(giveaway_id)], shadowed by the
    one above: [random.choice] on the remaining pool, then every ticket of
    the chosen winner is removed. *)
Fixpoint choose_winners (k : nat) (pool winners : list Z) (draws : list nat)
    : list Z :=
  match k with
  | O => winners
  | S k' =>
      match pool with
      | [] => choose_winners k' pool winners draws
      | _ :: _ =>
          let j := (hd 0%nat draws `mod` length pool)%nat in
          let winner := default 0 (pool !! j) in
          let winners' := if decide (winner ∈ winners) then winners
                          else winners ++ [winner] in
          choose_winners k' (filter (fun p => p ≠ winner) pool) winners' (tl draws)
      end
  end.

(** Number of winners the configuration asks for:
    [min(winners, number of participants)]. *)
Definition wanted_winners (g : giveaway) : Z :=
  Z.min (winners g) (Z.of_nat (length (participants g))).

(** Entries stored for participants are positive (1 by default, or a
    configured entry count, which the set-up dialog requires to be > 0). *)
Definition entries_positive (p : list (Z * Z)) : Prop :=
  Forall (fun kv => 0 < kv.2) p.

(** The weight as the specification words it: the highest entry count among
    the rules whose role the user holds, 1 when no rule matches, recomputed
    at every join. *)
Definition highest_matching_weight (rules : list role_config)
    (user_role_ids : list Z) : Z :=
  match filter (fun rc => role_id rc ∈ user_role_ids) rules with
  | [] => 1
  | rc :: l => foldr Z.max (entries rc) (entries <$> l)
  end.

(** Giveaways for concrete checks.  [giveaway_example]: two winners wanted,
    user 10 holds three tickets and user 20 one. *)
Definition giveaway_example : giveaway :=
  Mk "nitro" "one month" 1 2 2 [] [] 0 [] [(10, 3); (20, 1)] Active 100 None.

Definition data_example : gmap string giveaway := {["gw" := giveaway_example]}.

(** Role 1 is configured first with 2 entries, role 2 second with 5. *)
Definition giveaway_rules_example : giveaway :=
  Mk "nitro" "one month" 1 2 1 [] [] 0 [RoleConfig 1 2; RoleConfig 2 5] []
     Active 100 None.

(** User 7 joined earlier with 5 entries through role 1. *)
Definition giveaway_rejoin_example : giveaway :=
  Mk "nitro" "one month" 1 2 1 [] [] 0 [RoleConfig 1 5] [(7, 5)]
     Active 100 None.

End Giveaway.

(* ===================================================================== *)
(** * Invite tracking *)
(* ===================================================================== *)

Module Invites.

(** An invite as returned by [guild.invites()]. *)
Record invite := Invite {
  code : string;
  uses : Z;
  inviter : option Z;          (* [invite.inviter.id], if there is an inviter *)
  channel : option Z;
  created_at : option Z
}.

(** A value of [invite_data["invites"]]. *)
Record cached_invite := Cached {
  c_uses : Z;
  c_inviter_id : option Z;
  c_channel_id : option Z;
  c_created_at : option Z
}.

(** A value of [invite_data["members"]]: a dictionary whose keys are all
    optional.  The code builds three shapes: [{}], the inviter statistics
    [{total_invites, left_invites, recent_invites}] and the invitee data
    [{invited_by, invite_code, join_timestamp}]. *)
Record member_rec := Member {
  total_invites : option Z;
  left_invites : option Z;
  recent_invites : option (list (Z * Z));   (* (member_id, timestamp) *)
  invited_by : option Z;
  invite_code : option string;
  join_timestamp : option Z
}.

Definition empty_rec : member_rec := Member None None None None None None.

(** The module-level [invite_data]; both top-level keys may be missing
    ([load_json] yields [{}] for a fresh installation). *)
Record invite_data := Data {
  invites : option (gmap string cached_invite);
  members : option (gmap Z member_rec)
}.

(** ** A state-and-exception monad for the handler bodies

    A computation transforms [invite_data] and either returns a value or
    raises; the mutations made before a [raise] stay. *)
Definition M (A : Type) : Type := invite_data → invite_data * (exn + A).

Definition ret {A} (a : A) : M A := fun d => (d, inr a).
Definition raise {A} (e : exn) : M A := fun d => (d, inl e).
Definition bind {A B} (m : M A) (f : A → M B) : M B :=
  fun d => match m d with
           | (d', inr a) => f a d'
           | (d', inl e) => (d', inl e)
           end.

Notation "'let*' x ':=' m 'in' k" := (bind m (fun x => k))
  (at level 10, x name, m at level 100, k at level 200, only parsing).
Notation "m '>>' k" := (bind m (fun _ => k))
  (at level 100, k at level 200, right associativity, only parsing).

Fixpoint for_each {A} (l : list A) (body : A → M unit) : M unit :=
  match l with
  | [] => ret tt
  | x :: l' => body x  >> for_each l' body
  end.

(** [invite_data["invites"]] and [invite_data["members"]] as expressions:
    [KeyError] when the key is missing. *)
Definition get_invites : M (gmap string cached_invite) :=
  fun d => match invites d with
           | Some c => (d, inr c)
           | None => (d, inl KeyError)
           end.

Definition get_members : M (gmap Z member_rec) :=
  fun d => match members d with
           | Some ms => (d, inr ms)
           | None => (d, inl KeyError)
           end.

Definition put_invites (c : gmap string cached_invite) : M unit :=
  fun d => (Data (Some c) (members d), inr tt).

Definition put_members (ms : gmap Z member_rec) : M unit :=
  fun d => (Data (invites d) (Some ms), inr tt).

(** Subscripting a dictionary value: [KeyError] when absent. *)
Definition subscript {A} (o : option A) : M A :=
  match o with
  | Some a => ret a
  | None => raise KeyError
  end.

(** Reading a local variable that may not have been assigned. *)
Definition read_local {A} (v : option A) : M A :=
  match v with
  | Some a => ret a
  | None => raise UnboundLocalError
  end.

(** ** Joining *)

(** [cached_invites.get(invite.code, {}).get("uses", 0)] *)
Definition cached_uses (cached_invites : gmap string cached_invite)
    (inv : invite) : Z :=
  default 0 (c_uses <$> cached_invites !! code inv).

(** The search loop with its [break]: the first invite, in the order of
    [guild.invites()], whose use count exceeds the cached one. *)
Definition find_used (cached_invites : gmap string cached_invite)
    (current_invites : list invite) : option invite :=
  find (fun inv => bool_decide (uses inv > cached_uses cached_invites inv))
       current_invites.

(** [l[-10:]] when [len(l) > 10]. *)
Definition keep_last_10 {A} (l : list A) : list A :=
  if decide (10 < length l)%nat then drop (length l - 10) l else l.

(** The body of [if used_invite and inviter:] up to [save_json]. *)
Definition attribute (used_invite : invite) (inviter_ : Z) (member_id now : Z)
    : M unit :=
  (* invite_data["invites"][used_invite.code]["uses"] = used_invite.uses *)
  let* c := get_invites in
  let* e := subscript (c !! code used_invite) in
  put_invites (<[code used_invite :=
                   Cached (uses used_invite) (c_inviter_id e)
                          (c_channel_id e) (c_created_at e)]> c) >>
  (* if "members" not in invite_data: ...; inviter_id = str(inviter.id) *)
  let* inviter_id_local := (fun d =>
      match members d with
      | None => (Data (invites d) (Some ∅), inr (Some inviter_))
      | Some _ => (d, inr None)
      end) in
  (* if inviter_id not in invite_data["members"]: *)
  let* inviter_id := read_local inviter_id_local in
  let* ms := get_members in
  (match ms !! inviter_id with
   | None =>
       put_members
         (<[inviter_id := Member (Some 0) (Some 0) (Some []) None None None]> ms)
   | Some _ => ret tt
   end) >>
  (* invite_data["members"][inviter_id]["total_invites"] += 1 *)
  let* ms := get_members in
  let* r := subscript (ms !! inviter_id) in
  let* t := subscript (total_invites r) in
  let r := Member (Some (t + 1)) (left_invites r) (recent_invites r)
                  (invited_by r) (invite_code r) (join_timestamp r) in
  put_members (<[inviter_id := r]> ms) >>
  (* ...["recent_invites"].append({...}) and the trim to the last 10 *)
  let* ms := get_members in
  let* r := subscript (ms !! inviter_id) in
  let* rc := subscript (recent_invites r) in
  let r := Member (total_invites r) (left_invites r)
                  (Some (keep_last_10 (rc ++ [(member_id, now)])))
                  (invited_by r) (invite_code r) (join_timestamp r) in
  put_members (<[inviter_id := r]> ms) >>
  (* Record who invited this member *)
  let* ms := get_members in
  (match ms !! member_id with
   | None => put_members (<[member_id := empty_rec]> ms)
   | Some _ => ret tt
   end) >>
  let* ms := get_members in
  let* r := subscript (ms !! member_id) in
  match total_invites r with
  | None =>
      put_members
        (<[member_id := Member None None None (Some inviter_)
                               (Some (code used_invite)) (Some now)]> ms)
  | Some _ => ret tt
  end.

(** The dictionary cached for an invite of the snapshot. *)
Definition cache_entry (inv : invite) : cached_invite :=
  Cached (uses inv) (inviter inv) (channel inv) (created_at inv).

(** The "Cache new invite states" loop. *)
Definition refresh_cache (current_invites : list invite) : M unit :=
  for_each current_invites (fun inv =>
    let* c := get_invites in
    put_invites (<[code inv := cache_entry inv]> c)).

(** What the calls to the chat platform that follow an attribution meet.
    None of them changes [invite_data].  [update_member_invite_roles] is
    called with the inviter of the invite, a user object that need not be a
    member of the guild, and may raise; the welcome block runs when
    [invite_welcome_channel_id] is configured and the channel is found, and
    its [send] may raise. *)
Record platform := Platform {
  roles_update : option exn;       (* what [update_member_invite_roles] raises *)
  welcome_channel : bool;
  welcome_send : option exn        (* what [welcome_channel.send] raises *)
}.

(** No milestone failure and no welcome channel, as with the built-in
    configuration. *)
Definition quiet : platform := Platform None false None.

(** A call to the platform that changes no tracked state. *)
Definition platform_call (raised : option exn) : M unit :=
  match raised with
  | Some e => raise e
  | None => ret tt
  end.

(** The value bound to the local name [current_invites]: the invite list,
    until the welcome block binds the name to the inviter's number of
    active invites. *)
Inductive current_invites_value :=
| InviteList (l : list invite)
| ActiveInvites (n : Z).

(** "Send welcome message"; returns the binding of [current_invites] it
    leaves. *)
Definition send_welcome (inviter_id : Z) (env : platform)
    (current_invites : list invite) : M current_invites_value :=
  if welcome_channel env then
    let* ms := get_members in
    let* r := subscript (ms !! inviter_id) in
    let* total_invites_ := subscript (total_invites r) in
    let left_invites_ := default 0 (left_invites r) in
    platform_call (welcome_send env) >>
    ret (ActiveInvites (total_invites_ - left_invites_))
  else ret (InviteList current_invites).

(** "Cache new invite states": [for invite in current_invites], which
    raises when the name is bound to a number. *)
Definition cache_new_states (current_invites : current_invites_value) : M unit :=
  match current_invites with
  | InviteList l => refresh_cache l
  | ActiveInvites _ => raise TypeError
  end.

(** The [try] block of [handle_member_join_invite_tracking].  The result
    value tells whether the join was attributed, and to which inviter and
    invite code.  Writing [invite_data.json] is taken to succeed, and both
    reads of the clock in one call are taken to give the same [now]. *)
Definition join_body (member_id : Z) (current_invites : list invite) (now : Z)
    (env : platform) : M (option (Z * string)) :=
  fun d =>
    let cached_invites := default ∅ (invites d) in
    let used_invite := find_used cached_invites current_invites in
    (let* r :=
       match used_invite with
       | Some u =>
           match inviter u with
           | Some i =>
               attribute u i member_id now >>
               platform_call (roles_update env) >>
               let* rebound := send_welcome i env current_invites in
               ret (Some (i, code u), rebound)
           | None => ret (None, InviteList current_invites)
           end
       | None => ret (None, InviteList current_invites)
       end in
     cache_new_states r.2 >>
     ret r.1) d.

(** How a handler call finishes: normally, or with the exception caught and
    logged by [except Exception]. *)
Inductive outcome (A : Type) :=
| Done (a : A)
| Logged (e : exn).
Arguments Done {A} a.
Arguments Logged {A} e.

(** [handle_member_join_invite_tracking(member)] *)
Definition handle_member_join_invite_tracking (member_id : Z)
    (current_invites : list invite) (now : Z) (env : platform)
    (d : invite_data) : invite_data * outcome (option (Z * string)) :=
  match join_body member_id current_invites now env d with
  | (d', inr a) => (d', Done a)
  | (d', inl e) => (d', Logged e)
  end.

(** ** Leaving *)

(** [handle_member_leave_invite_tracking(member)]; [if inviter_id:] holds
    for an identifier that is present and not 0. *)
Definition handle_member_leave_invite_tracking (member_id : Z)
    (d : invite_data) : invite_data :=
  let member_data :=
    default empty_rec (default ∅ (members d) !! member_id) in
  match invited_by member_data with
  | Some inviter_id =>
      if decide (inviter_id = 0) then d
      else match members d with
           | Some ms =>
               match ms !! inviter_id with
               | Some r =>
                   Data (invites d)
                        (Some (<[inviter_id :=
                                   Member (total_invites r)
                                          (Some (default 0 (left_invites r) + 1))
                                          (recent_invites r) (invited_by r)
                                          (invite_code r) (join_timestamp r)]> ms))
               | None => d
               end
           | None => d
           end
  | None => d
  end.

(** [current_invites = total_invites - left_invites], as the statistics
    commands and the welcome message compute it. *)
Definition current_invites_of (r : member_rec) : Z :=
  default 0 (total_invites r) - default 0 (left_invites r).

(** ** Sequences of membership events *)

Inductive event :=
| Join (member_id : Z) (current_invites : list invite) (now : Z)
       (env : platform)
| Leave (member_id : Z).

Definition step (d : invite_data) (ev : event) : invite_data :=
  match ev with
  | Join m cur now env => (handle_member_join_invite_tracking m cur now env d).1
  | Leave m => handle_member_leave_invite_tracking m d
  end.

Definition run (d : invite_data) (evs : list event) : invite_data :=
  foldl step d evs.

(** The record of a member, if any. *)
Definition member_of (d : invite_data) (m : Z) : option member_rec :=
  default ∅ (members d) !! m.

(** The three invitee fields of a member. *)
Definition invitee_fields (d : invite_data) (m : Z)
    : option Z * option string * option Z :=
  match member_of d m with
  | Some r => (invited_by r, invite_code r, join_timestamp r)
  | None => (None, None, None)
  end.

(** Every recorded inviter has a record of their own. *)
Definition inviters_recorded (d : invite_data) : Prop :=
  ∀ m r i, member_of d m = Some r → invited_by r = Some i →
           is_Some (member_of d i).

(** The increase of an invite's use count over the cache, by which the
    specification ranks candidate invites. *)
Definition use_delta (cached_invites : gmap string cached_invite)
    (inv : invite) : Z :=
  uses inv - cached_uses cached_invites inv.

(** States and snapshots for concrete checks: invites ["x"] of user 5 and
    ["y"] of user 6 are cached with 0 uses; nobody has been tracked yet. *)
Definition cache_example : gmap string cached_invite :=
  {["x" := Cached 0 (Some 5) None None; "y" := Cached 0 (Some 6) None None]}.

Definition fresh_example : invite_data := Data (Some cache_example) None.

Definition snapshot_x1_y3 : list invite :=
  [Invite "x" 1 (Some 5) None None; Invite "y" 3 (Some 6) None None].

Definition snapshot_x1_y1 : list invite :=
  [Invite "x" 1 (Some 5) None None; Invite "y" 1 (Some 6) None None].

Definition snapshot_x1 : list invite :=
  [Invite "x" 1 (Some 5) None None; Invite "y" 0 (Some 6) None None].

Definition snapshot_x2 : list invite :=
  [Invite "x" 2 (Some 5) None None; Invite "y" 0 (Some 6) None None].

(** A tracked guild whose cache does not know invite ["z"] yet. *)
Definition tracked_example : invite_data :=
  Data (Some cache_example)
       (Some {[5 := Member (Some 1) (Some 0) (Some [(77, 1000)]) None None None]}).

Definition snapshot_z1 : list invite :=
  [Invite "x" 0 (Some 5) None None; Invite "z" 1 (Some 6) None None].

End Invites.

(* ===================================================================== *)
(** * Slot commands and premium-slot consumption *)
(* ===================================================================== *)

Module SlotCommands.
Import Slots.

(** How [/addslots] and [/removeslots] answer. *)
Inductive slot_reply :=
| NoPermission                 (* caller has no staff role *)
| NotPositive                  (* "Amount must be positive." *)
| NothingToRemove              (* "... has no manual slots to remove." *)
| Changed (amount : Z)
| Failed (e : exn).

(** The record both commands create for an unknown user. *)
Definition fresh_record : slot_record := SlotRecord 0 0 (Some 0).

(** [if user_id not in premium_slots: premium_slots[user_id] = {...}] *)
Definition ensure_record (user_id : Z) (premium_slots : gmap Z slot_record)
    : gmap Z slot_record :=
  match premium_slots !! user_id with
  | None => <[user_id := fresh_record]> premium_slots
  | Some _ => premium_slots
  end.

(** [/addslots member amount]; [staff] is [has_staff_role(interaction)]. *)
Definition addslots (cfg : bot_config) (staff : bool) (user_id : Z)
    (roles : list Z) (amount : Z) (premium_slots : gmap Z slot_record)
    : gmap Z slot_record * slot_reply :=
  if negb staff then (premium_slots, NoPermission)
  else if bool_decide (amount ≤ 0) then (premium_slots, NotPositive)
  else
    let ps := ensure_record user_id
                (update_user_slots cfg user_id roles premium_slots) in
    match ps !! user_id with
    | None => (ps, Failed KeyError)
    | Some r =>
        (<[user_id := SlotRecord (total_slots r + amount) (used_slots r)
                        (Some (default 0 (manual_slots r) + amount))]> ps,
         Changed amount)
    end.

(** [/removeslots member amount].  The two [-=] statements subscript
    ["manual_slots"] and ["total_slots"]. *)
Definition removeslots (cfg : bot_config) (staff : bool) (user_id : Z)
    (roles : list Z) (amount : Z) (premium_slots : gmap Z slot_record)
    : gmap Z slot_record * slot_reply :=
  if negb staff then (premium_slots, NoPermission)
  else if bool_decide (amount ≤ 0) then (premium_slots, NotPositive)
  else
    let ps := ensure_record user_id
                (update_user_slots cfg user_id roles premium_slots) in
    match ps !! user_id with
    | None => (ps, Failed KeyError)
    | Some r =>
        let current_manual := default 0 (manual_slots r) in
        let remove_amount := Z.min amount current_manual in
        if bool_decide (remove_amount = 0) then (ps, NothingToRemove)
        else
          match manual_slots r with
          | None => (ps, Failed KeyError)
          | Some manual =>
              let r1 := SlotRecord (total_slots r - remove_amount)
                          (used_slots r) (Some (manual - remove_amount)) in
              let r2 := if decide (used_slots r1 > total_slots r1)
                        then SlotRecord (total_slots r1) (total_slots r1)
                                        (manual_slots r1)
                        else r1 in
              (<[user_id := r2]> ps, Changed remove_amount)
          end
    end.

(** The premium check of [create_auction_thread]: a seller without record
    reads as [{"total_slots": 0, "used_slots": 0}]. *)
Definition premium_slot_available (premium_slots : gmap Z slot_record)
    (seller_id : Z) : bool :=
  let user_slots := default (SlotRecord 0 0 None) (premium_slots !! seller_id) in
  negb (bool_decide (used_slots user_slots >= total_slots user_slots)).

(** "Use premium slot if needed", after the thread has been created. *)
Definition use_premium_slot (premium_slots : gmap Z slot_record)
    (seller_id : Z) : gmap Z slot_record :=
  let ps := match premium_slots !! seller_id with
            | None => <[seller_id := SlotRecord 0 0 None]> premium_slots
            | Some _ => premium_slots
            end in
  alter (fun r => SlotRecord (total_slots r) (used_slots r + 1) (manual_slots r))
        seller_id ps.

(** The premium part of [create_auction_thread]: the check, then (the
    thread having been created) the consumption; [None] when the seller has
    no slot available. *)
Definition create_premium_auction (premium_slots : gmap Z slot_record)
    (seller_id : Z) : option (gmap Z slot_record) :=
  if premium_slot_available premium_slots seller_id
  then Some (use_premium_slot premium_slots seller_id)
  else None.

(** "Clean up invalid premium slots" of [/cleanup_data]. *)
Definition cleanup_slots (premium_slots : gmap Z slot_record)
    : gmap Z slot_record :=
  (fun r =>
     let r1 := if decide (total_slots r < 0)
               then SlotRecord 0 (used_slots r) (manual_slots r) else r in
     if decide (used_slots r1 < 0)
     then SlotRecord (total_slots r1) 0 (manual_slots r1) else r1)
  <$> premium_slots.

(** The invariant of a slot record that the commands maintain for the
    roles a user holds. *)
Definition record_consistent (cfg : bot_config) (roles : list Z)
    (r : slot_record) : Prop :=
  total_slots r = calculate_user_slots cfg roles + default 0 (manual_slots r)
  ∧ used_slots r ≤ total_slots r.

End SlotCommands.

(* ===================================================================== *)
(** * Giveaway set-up, sweep, claims and clean-up *)
(* ===================================================================== *)

Module GiveawayOps.
Import Giveaway.

(** [GiveawayExtraEntryModal.on_submit] on the list
    [giveaway_data["extra_entry_roles"]]: [None] when the input is rejected
    (entries not positive, or role not found in the guild). *)
Definition add_extra_entry (role_found : bool) (role_id_ entries_ : Z)
    (rules : list role_config) : option (list role_config) :=
  if bool_decide (entries_ ≤ 0) then None
  else if negb role_found then None
  else Some (filter (fun r => role_id r ≠ role_id_) rules
               ++ [RoleConfig role_id_ entries_]).


(** What one run of the sweep meets outside the giveaway store. *)
Record sweep_env := SweepEnv {
  guild_found : bool;                 (* [bot.get_guild(GUILD_ID)] *)
  channel_found : string → bool;      (* per giveaway *)
  draws : string → list nat           (* the random draws of each ending *)
}.

(** The loop of [check_giveaways] over a snapshot of the identifiers.  An
    exception of [end_giveaway] is not caught and ends the loop. *)
Fixpoint sweep_loop (current_time : Z) (env : sweep_env) (items : list string)
    (giveaways_data : gmap string giveaway)
    : gmap string giveaway * option exn :=
  match items with
  | [] => (giveaways_data, None)
  | giveaway_id :: rest =>
      match giveaways_data !! giveaway_id with
      | Some g =>
          if bool_decide (gstatus g = Active)
             && bool_decide (current_time >= end_time g)
             && guild_found env
          then
            match end_giveaway giveaways_data giveaway_id
                    (channel_found env giveaway_id) (draws env giveaway_id) with
            | (data', Raised e) => (data', Some e)
            | (data', _) => sweep_loop current_time env rest data'
            end
          else sweep_loop current_time env rest giveaways_data
      | None => sweep_loop current_time env rest giveaways_data
      end
  end.

(** [check_giveaways()], the definition in force.  The store is traversed
    in the order of [map_to_list]; apart from which exception comes first,
    the result does not depend on the order. *)
Definition check_giveaways (current_time : Z) (env : sweep_env)
    (giveaways_data : gmap string giveaway)
    : gmap string giveaway * option exn :=
  sweep_loop current_time env (map_to_list giveaways_data).*1 giveaways_data.

(** A giveaway the sweep has to end at [current_time]. *)
Definition due (current_time : Z) (g : giveaway) : Prop :=
  gstatus g = Active ∧ end_time g ≤ current_time.

(** What ending never changes in a giveaway. *)
Definition same_entries (g g' : giveaway) : Prop :=
  participants g' = participants g ∧ end_time g' = end_time g
  ∧ winners g' = winners g ∧ extra_entry_roles g' = extra_entry_roles g.

(** The giveaways that the set-up dialogs produce: distinct participants
    with positive entry counts, positive configured entries, at least one
    winner. *)
Definition well_formed (g : giveaway) : Prop :=
  dict_wf (participants g)
  ∧ entries_positive (participants g)
  ∧ Forall (fun rc => 0 < entries rc) (extra_entry_roles g)
  ∧ 0 < winners g.

(** The value of [giveaway["claimed_winners"]] is kept beside the giveaway,
    in a map from giveaway identifiers; a missing key is a missing entry. *)
Definition won (user_id : Z) (g : giveaway) : bool :=
  bool_decide (gstatus g = Ended)
  && match winners_list g with
     | Some wl => negb (bool_decide (wl = [])) && bool_decide (user_id ∈ wl)
     | None => false
     end.

(** The claimed list one iteration leaves for a giveaway. *)
Definition claim_in (user_id : Z) (g : giveaway) (claimed : option (list Z))
    : option (list Z) :=
  if won user_id g then
    let c := match claimed with
             | Some (x :: l) => x :: l
             | _ => []
             end in
    Some (if bool_decide (user_id ∈ c) then c else c ++ [user_id])
  else claimed.

(** One iteration of the loop of [/giveaway_claim]; the second component
    collects [claimed_giveaways]. *)
Definition claim_step (user_id : Z)
    (acc : gmap string (list Z) * list string) (item : string * giveaway)
    : gmap string (list Z) * list string :=
  let '(giveaway_id, g) := item in
  if won user_id g then
    let c := match acc.1 !! giveaway_id with
             | Some (x :: l) => x :: l
             | _ => []
             end in
    if bool_decide (user_id ∈ c) then (<[giveaway_id := c]> acc.1, acc.2)
    else (<[giveaway_id := c ++ [user_id]]> acc.1, acc.2 ++ [name g])
  else acc.

(** [/giveaway_claim] for [user_id], permission already checked: the new
    claimed lists and the names of the giveaways newly claimed. *)
Definition giveaway_claim (user_id : Z) (giveaways_data : gmap string giveaway)
    (claimed : gmap string (list Z)) : gmap string (list Z) * list string :=
  foldl (claim_step user_id) (claimed, []) (map_to_list giveaways_data).

(** [unclaimed_winners] of [/giveaway_unclaimed] for one giveaway. *)
Definition unclaimed_winners (g : giveaway) (claimed_winners : option (list Z))
    : list Z :=
  if bool_decide (gstatus g = Ended)
  then filter (fun w => w ∉ default [] claimed_winners)
              (default [] (winners_list g))
  else [].


End GiveawayOps.

(* ===================================================================== *)
(** * Invite cache synchronisation and milestone roles *)
(* ===================================================================== *)

Module InviteOps.
Import Invites.

(** [cache_guild_invites(guild)] for the list [guild.invites()] returned. *)
Definition cache_guild_invites (current_invites : list invite)
    (d : invite_data) : invite_data :=
  let cached := default ∅ (invites d) in
  Data (Some (foldl (fun c inv => <[code inv := cache_entry inv]> c)
                    cached current_invites))
       (members d).

(** The cache holds every invite of a snapshot with the snapshot's data. *)
Definition synced (current_invites : list invite) (d : invite_data) : Prop :=
  ∃ c, invites d = Some c
       ∧ ∀ inv, inv ∈ current_invites → c !! code inv = Some (cache_entry inv).

(** The search loop of [update_member_invite_roles] over
    [BOT_CONFIG["invite_roles"]], given in iteration order with the
    thresholds already converted by [int]: the pair
    [(target_role_id, current_threshold)]. *)
Definition find_target (invite_count : Z) (invite_roles_config : list (Z * Z))
    : option Z * Z :=
  foldl (fun acc item =>
           if bool_decide (invite_count >= item.1) && bool_decide (item.1 > acc.2)
           then (Some item.2, item.1) else acc)
        (None, 0) invite_roles_config.

(** The role requests [update_member_invite_roles] sends for a member. *)
Record role_requests := Requests {
  added : option Z;
  removed : list Z
}.

(** [update_member_invite_roles(member)]; [guild_roles] are the roles
    [guild.get_role] finds, [member_roles] the roles the member holds. *)
Definition update_member_invite_roles (d : invite_data)
    (invite_roles_config : list (Z * Z)) (guild_roles : gset Z)
    (member_id : Z) (member_roles : list Z) : role_requests :=
  let member_data := default empty_rec (default ∅ (members d) !! member_id) in
  let invite_count := default 0 (total_invites member_data) in
  if bool_decide (invite_roles_config = []) then Requests None []
  else
    let '(target_role_id, current_threshold) :=
      find_target invite_count invite_roles_config in
    match target_role_id with
    | Some target =>
        if bool_decide (target ≠ 0) && bool_decide (target ∈ guild_roles)
           && negb (bool_decide (target ∈ member_roles))
        then Requests (Some target)
               (snd <$> filter (fun item =>
                                  item.1 < current_threshold
                                  ∧ item.2 ∈ guild_roles
                                  ∧ item.2 ∈ member_roles)
                               invite_roles_config)
        else Requests None []
    | None => Requests None []
    end.

End InviteOps.

(* ===================================================================== *)
(** * Properties of the premium-slot calculator *)
(* ===================================================================== *)

Section SlotsFacts.
Import Slots.

Lemma slot_roles_loop cfg (roles : list Z) (a : Z) :
  foldl (fun acc role_id =>
           match slot_roles cfg !! IntKey role_id with
           | Some sr => acc + sr_slots sr
           | None => acc
           end) a roles
  = a + foldr Z.add 0
          ((fun r => default 0 (sr_slots <$> slot_roles cfg !! IntKey r))
             <$> roles).
Proof.
  revert a. induction roles as [|r roles IH]; intros a.
  - simpl. lia.
  - rewrite fmap_cons. cbn [foldl foldr]. rewrite IH.
    destruct (slot_roles cfg !! IntKey r); cbn; unfold id; lia.
Qed.

Lemma auto_slot_roles_loop cfg (roles : list Z) (a : Z) :
  foldl (fun acc role_id =>
           match auto_slot_roles cfg !! IntKey role_id with
           | Some n => acc + n
           | None => acc
           end) a roles
  = a + foldr Z.add 0
          ((fun r => default 0 (auto_slot_roles cfg !! IntKey r)) <$> roles).
Proof.
  revert a. induction roles as [|r roles IH]; intros a.
  - simpl. lia.
  - rewrite fmap_cons. cbn [foldl foldr]. rewrite IH.
    destruct (auto_slot_roles cfg !! IntKey r); cbn; unfold id; lia.
Qed.

Lemma sum_add_pointwise (f g : Z → Z) (l : list Z) :
  foldr Z.add 0 ((fun r => f r + g r) <$> l)
  = foldr Z.add 0 (f <$> l) + foldr Z.add 0 (g <$> l).
Proof.
  induction l as [|r l IH]; [done|].
  rewrite !fmap_cons. cbn [foldr]. lia.
Qed.

(** The two accumulation loops compute the sum of the grants of the roles
    held. *)
Lemma calculate_user_slots_sum cfg roles :
  calculate_user_slots cfg roles = role_derived_slots cfg roles.
Proof.
  unfold calculate_user_slots, role_derived_slots.
  rewrite auto_slot_roles_loop, slot_roles_loop.
  unfold role_grant.
  rewrite (sum_add_pointwise
             (fun r => default 0 (sr_slots <$> slot_roles cfg !! IntKey r))
             (fun r => default 0 (auto_slot_roles cfg !! IntKey r))).
  lia.
Qed.

Lemma role_grant_nonneg cfg r : table_nonneg cfg → 0 ≤ role_grant cfg r.
Proof.
  intros [H1 H2]. unfold role_grant.
  destruct (slot_roles cfg !! IntKey r) as [sr|] eqn:E1;
    destruct (auto_slot_roles cfg !! IntKey r) as [n|] eqn:E2; simpl;
    try specialize (H1 _ _ E1); try specialize (H2 _ _ E2); lia.
Qed.

Lemma role_derived_slots_nonneg cfg roles :
  table_nonneg cfg → 0 ≤ role_derived_slots cfg roles.
Proof.
  intros H. unfold role_derived_slots.
  induction roles as [|r roles IH]; [done|].
  rewrite fmap_cons. cbn [foldr].
  pose proof (role_grant_nonneg cfg r H). lia.
Qed.

(** Only the record of the user at hand is touched. *)
Lemma update_user_slots_other cfg uid roles ps uid' :
  uid ≠ uid' → update_user_slots cfg uid roles ps !! uid' = ps !! uid'.
Proof. intros Hne. unfold update_user_slots. by rewrite lookup_insert_ne. Qed.

(** The record stored for the user after the update, with no side
    condition. *)
Lemma update_user_slots_record cfg uid roles ps :
  let old := default (SlotRecord 0 0 (Some 0)) (ps !! uid) in
  let total := role_derived_slots cfg roles + default 0 (manual_slots old) in
  update_user_slots cfg uid roles ps !! uid
  = Some (SlotRecord total (Z.min (used_slots old) total) (manual_slots old)).
Proof.
  intros old total. unfold update_user_slots.
  rewrite lookup_insert_eq, calculate_user_slots_sum.
  fold old. fold total. simpl.
  destruct (decide (used_slots old > total)) as [Hgt|Hle]; simpl; f_equal.
  - f_equal. lia.
  - f_equal. lia.
Qed.

(** A configuration read back from [bot_config.json] grants nothing: its
    keys are strings and the calculator looks the tables up with integers. *)
Lemma string_keyed_grants_nothing cfg roles :
  string_keyed cfg → calculate_user_slots cfg roles = 0.
Proof.
  intros [H1 H2]. rewrite calculate_user_slots_sum. unfold role_derived_slots.
  induction roles as [|r roles IH]; [done|].
  rewrite fmap_cons. cbn [foldr]. rewrite IH. unfold role_grant.
  by rewrite H1, H2.
Qed.

Lemma cfg_reloaded_example_grants_nothing :
  string_keyed cfg_reloaded_example
  ∧ calculate_user_slots cfg_reloaded_example [1; 2] = 0
  ∧ calculate_user_slots cfg_example [1; 2] = 5.
Proof.
  split; [|split; reflexivity].
  split; intros n; apply lookup_singleton_ne; discriminate.
Qed.

(** C6 (counterexample).  The clamp of [update_user_slots] only lowers the
    used slots to the total.  With a slot table that gives the held role
    the count -4, a user without record ends with total -4 and used -4; and
    a stored used counter of -4 stays -4 under the example table. *)
Lemma update_user_slots_negative_used :
  update_user_slots cfg_negative_example 7 [1] ∅ !! 7
  = Some (SlotRecord (-4) (-4) (Some 0))
  ∧ update_user_slots cfg_example 7 [1; 2] {[7 := SlotRecord 5 (-4) (Some 0)]} !! 7
    = Some (SlotRecord 5 (-4) (Some 0)).
Proof. split; reflexivity. Qed.

(** C6 (amended).  Recomputing a user's entitlement always yields a record,
    for every role list, tables and stored records: the role-derived slots
    are the sum, over the roles held, of the counts the two tables hold
    under the role's identifier (0 for no roles), the total is that sum plus
    the manual slots, and the used slots become the minimum of the stored
    used slots and the total.  So the used slots never exceed the total;
    they are non-negative exactly when the stored used slots and the new
    total are, which is the case whenever the configured counts, the manual
    slots and the stored used slots are non-negative.  No other user's
    record changes. *)
Theorem update_user_slots_entitlement cfg uid roles ps :
  let old := default (SlotRecord 0 0 (Some 0)) (ps !! uid) in
  ∃ r, update_user_slots cfg uid roles ps !! uid = Some r
    ∧ calculate_user_slots cfg roles = role_derived_slots cfg roles
    ∧ calculate_user_slots cfg [] = 0
    ∧ total_slots r = calculate_user_slots cfg roles + default 0 (manual_slots old)
    ∧ manual_slots r = manual_slots old
    ∧ used_slots r = Z.min (used_slots old) (total_slots r)
    ∧ used_slots r ≤ total_slots r
    ∧ (0 ≤ used_slots r ↔ 0 ≤ used_slots old ∧ 0 ≤ total_slots r)
    ∧ (table_nonneg cfg → 0 ≤ default 0 (manual_slots old) →
       0 ≤ used_slots old → 0 ≤ used_slots r ≤ total_slots r)
    ∧ (∀ uid', uid ≠ uid' →
         update_user_slots cfg uid roles ps !! uid' = ps !! uid').
Proof.
  intros old. eexists. split; [apply update_user_slots_record|].
  rewrite calculate_user_slots_sum. fold old. cbn [total_slots used_slots manual_slots].
  split; [done|]. split; [done|]. split; [done|]. split; [done|].
  split; [done|]. split; [lia|]. split; [lia|]. split.
  - intros Htable Hm Hu.
    pose proof (role_derived_slots_nonneg cfg roles Htable). lia.
  - intros uid' Hne. by apply update_user_slots_other.
Qed.

Lemma update_user_slots_entitlement_witness :
  ∃ r, update_user_slots cfg_example 7 [1; 2] premium_slots_example !! 7 = Some r
    ∧ total_slots r = 6
    ∧ manual_slots r = Some 1
    ∧ used_slots r = 6.
Proof.
  destruct (update_user_slots_entitlement cfg_example 7 [1; 2]
              premium_slots_example)
    as (r & Hr & _ & _ & Ht & Hm & Hu & _).
  exists r. split; [exact Hr|]. split; [exact Ht|]. split; [exact Hm|].
  rewrite Hu, Ht. reflexivity.
Defined.

End SlotsFacts.

(* ===================================================================== *)
(** * Properties of the giveaway engine *)
(* ===================================================================== *)

Section SearchFacts.
Context {A : Type} (p : A → bool).

(** [find] returns the first element, in list order, satisfying the test. *)
Lemma find_first_split (l : list A) (x : A) :
  find p l = Some x →
  ∃ l1 l2, l = l1 ++ x :: l2 ∧ p x = true ∧ Forall (fun y => p y = false) l1.
Proof.
  induction l as [|y l IH]; simpl; [done|].
  destruct (p y) eqn:E.
  - intros [= ->]. by exists [], l.
  - intros (l1 & l2 & -> & Hx & Hl1)%IH.
    exists (y :: l1), l2. split; [done|]. split; [done|]. by constructor.
Qed.

Lemma find_none_all (l : list A) :
  find p l = None → Forall (fun y => p y = false) l.
Proof.
  induction l as [|y l IH]; simpl; [constructor|].
  destruct (p y) eqn:E; [done|]. intros H. constructor; auto.
Qed.
End SearchFacts.

Section DictFacts.
Import Giveaway.
Context {V : Type}.
Implicit Types (d : list (Z * V)) (k : Z) (v : V).

Lemma dict_get_set_eq k v d : dict_get k (dict_set k v d) = Some v.
Proof.
  induction d as [|[k' v'] d IH]; simpl.
  - by rewrite decide_True.
  - destruct (decide (k = k')) as [->|Hne]; simpl.
    + by rewrite decide_True.
    + by rewrite decide_False.
Qed.

Lemma dict_get_set_ne k k' v d :
  k' ≠ k → dict_get k' (dict_set k v d) = dict_get k' d.
Proof.
  intros Hne. induction d as [|[k'' v''] d IH]; simpl.
  - by rewrite decide_False.
  - destruct (decide (k = k'')) as [->|Hne']; simpl.
    + by rewrite !decide_False.
    + destruct (decide (k' = k'')); [done|apply IH].
Qed.

Lemma dict_get_None_keys k d : dict_get k d = None ↔ k ∉ dict_keys d.
Proof.
  unfold dict_keys. induction d as [|[k' v'] d IH]; csimpl.
  - split; [intros _; apply not_elem_of_nil|done].
  - rewrite not_elem_of_cons. destruct (decide (k = k')) as [->|Hne].
    + split; [done|]. intros [? _]. done.
    + rewrite IH. split; [by intros ?|by intros [_ ?]].
Qed.

(** Assigning to a present key keeps the key list; to an absent key,
    appends it. *)
Lemma dict_keys_set k v d :
  dict_keys (dict_set k v d)
  = match dict_get k d with
    | Some _ => dict_keys d
    | None => dict_keys d ++ [k]
    end.
Proof.
  unfold dict_keys. induction d as [|[k' v'] d IH]; csimpl; [done|].
  destruct (decide (k = k')) as [->|Hne]; csimpl; [done|].
  rewrite IH. by destruct (dict_get k d).
Qed.

Lemma dict_set_wf k v d : dict_wf d → dict_wf (dict_set k v d).
Proof.
  unfold dict_wf. intros Hwf. rewrite dict_keys_set.
  destruct (dict_get k d) eqn:E; [done|].
  apply NoDup_app. split; [done|]. split; [|apply NoDup_singleton].
  intros x Hx ->%list_elem_of_singleton.
  by apply dict_get_None_keys in E.
Qed.

Lemma dict_set_length k v d :
  length (dict_set k v d)
  = match dict_get k d with
    | Some _ => length d
    | None => S (length d)
    end.
Proof.
  induction d as [|[k' v'] d IH]; simpl; [done|].
  destruct (decide (k = k')); simpl; [done|].
  rewrite IH. by destruct (dict_get k d).
Qed.

End DictFacts.

Section DrawFacts.
Import Giveaway.

Lemma draw_in_range (n d : nat) : (0 < n)%nat → (d `mod` n < n)%nat.
Proof. intros H. apply Nat.mod_upper_bound. lia. Qed.









(** The tickets of the weighted pool belong to participants. *)
Lemma weighted_participants_elem (p : list (Z * Z)) (x : Z) :
  x ∈ weighted_participants p → x ∈ dict_keys p.
Proof.
  unfold weighted_participants, dict_keys.
  intros ([u n] & Hx & Hp)%list_elem_of_bind.
  apply elem_of_replicate_inv in Hx as ->.
  by apply (list_elem_of_fmap_2 fst) in Hp.
Qed.


End DrawFacts.

Section EndFacts.
Import Giveaway.
Implicit Types (data : gmap string giveaway) (gid : string) (g : giveaway).

(** The guard at the top of [end_giveaway]. *)
Lemma end_giveaway_guard data gid channel_found draws :
  (∀ g, data !! gid = Some g → gstatus g ≠ Active) →
  end_giveaway data gid channel_found draws = (data, AlreadyEnded).
Proof.
  intros H. unfold end_giveaway.
  destruct (data !! gid) as [g|] eqn:E; [|done].
  rewrite bool_decide_eq_false_2 by eauto. done.
Qed.

(** Past the guard the stored status is ["ended"], however the call
    finishes. *)
Lemma end_giveaway_sets_ended data gid g channel_found draws :
  data !! gid = Some g → gstatus g = Active →
  ∃ g1, (end_giveaway data gid channel_found draws).1 !! gid = Some g1
        ∧ gstatus g1 = Ended
        ∧ participants g1 = participants g.
Proof.
  intros E Ha. unfold end_giveaway. rewrite E.
  rewrite bool_decide_eq_true_2 by done. cbn [negb].
  destruct channel_found; cbn [negb fst].
  2:{ eexists. rewrite lookup_insert_eq. done. }
  destruct (bool_decide (participants (set_status Ended g) = [])); cbn [fst].
  { eexists. rewrite lookup_insert_eq. done. }
  destruct (random_sample _ _ _) as [e|ws]; cbn [fst].
  - eexists. rewrite lookup_insert_eq. done.
  - eexists. rewrite lookup_insert_eq. done.
Qed.

(** After any call of [end_giveaway] the giveaway is not active. *)
Lemma end_giveaway_not_active data gid channel_found draws g1 :
  (end_giveaway data gid channel_found draws).1 !! gid = Some g1 →
  gstatus g1 ≠ Active.
Proof.
  destruct (data !! gid) as [g|] eqn:E.
  - destruct (decide (gstatus g = Active)) as [Ha|Hn].
    + destruct (end_giveaway_sets_ended data gid g channel_found draws E Ha)
        as (g' & -> & He & _).
      intros [= <-]. by rewrite He.
    + rewrite end_giveaway_guard; [|by intros g' [= <-]%(eq_stepl E)].
      cbn [fst]. rewrite E. by intros [= <-].
  - rewrite end_giveaway_guard; [|intros g'; by rewrite E].
    cbn [fst]. by rewrite E.
Qed.



(** C1 (evaluation at the failing input).  Two winners are wanted and there
    are two participants, yet when [random.sample] returns two of the three
    tickets of user 10, the duplicate removal leaves a single winner. *)
Theorem end_giveaway_fewer_winners :
  wanted_winners giveaway_example = 2
  ∧ length (participants giveaway_example) = 2%nat
  ∧ (end_giveaway data_example "gw" true [1%nat; 0%nat]).2 = Winners [10]
  ∧ winners_list <$> (end_giveaway data_example "gw" true [1%nat; 0%nat]).1 !! "gw"
    = Some (Some [10]).
Proof. vm_compute. done. Qed.

(** C2.  After [end_giveaway] has run on an active giveaway its status is
    ended, and every further call is a no-op: it returns at the guard and
    leaves the whole state, winners list included, as the first call left
    it. *)
Theorem end_giveaway_idempotent data gid g channel_found draws
    (Hg : data !! gid = Some g) (Hactive : gstatus g = Active) :
  let data1 := (end_giveaway data gid channel_found draws).1 in
  (∃ g1, data1 !! gid = Some g1 ∧ gstatus g1 = Ended)
  ∧ ∀ channel_found' draws',
      end_giveaway data1 gid channel_found' draws' = (data1, AlreadyEnded).
Proof.
  intros data1. split.
  - destruct (end_giveaway_sets_ended data gid g channel_found draws Hg Hactive)
      as (g1 & H1 & H2 & _). eauto.
  - intros ch' d'. apply end_giveaway_guard.
    intros g1 H1. by eapply end_giveaway_not_active.
Qed.

Lemma end_giveaway_idempotent_witness :
  let data1 := (end_giveaway data_example "gw" true [1%nat; 0%nat]).1 in
  (∃ g1, data1 !! "gw" = Some g1 ∧ gstatus g1 = Ended)
  ∧ ∀ channel_found' draws',
      end_giveaway data1 "gw" channel_found' draws' = (data1, AlreadyEnded).
Proof.
  apply (end_giveaway_idempotent data_example "gw" giveaway_example
           true [1%nat; 0%nat]); reflexivity.
Defined.

End EndFacts.

Section ShadowedEndFacts.
Import Giveaway.

Lemma pool_without_winner (pool : list Z) (w : Z) :
  w ∈ pool →
  size (list_to_set (filter (fun p => p ≠ w) pool) : gset Z)
  = (size (list_to_set pool : gset Z) - 1)%nat.
Proof.
  intros Hw.
  assert ((list_to_set (filter (fun p => p ≠ w) pool) : gset Z)
          = list_to_set pool ∖ {[w]}) as ->.
  { apply set_eq. intros x.
    rewrite elem_of_difference, !elem_of_list_to_set, list_elem_of_filter,
      elem_of_singleton. tauto. }
  rewrite size_difference, size_singleton; [done|].
  apply singleton_subseteq_l. by apply elem_of_list_to_set.
Qed.

Lemma choose_winners_step (k : nat) (pool winners : list Z) (draws : list nat) :
  pool ≠ [] →
  choose_winners (S k) pool winners draws
  = let winner :=
      default 0 (pool !! (hd 0%nat draws `mod` length pool)%nat) in
    choose_winners k (filter (fun p => p ≠ winner) pool)
      (if decide (winner ∈ winners) then winners else winners ++ [winner])
      (tl draws).
Proof. by destruct pool. Qed.

(** The selection loop of the shadowed definition adds one new winner per
    iteration as long as distinct users remain in the pool. *)
Lemma choose_winners_inv (k : nat) (pool winners : list Z) (draws : list nat) :
  NoDup winners → (∀ x, x ∈ pool → x ∉ winners) →
  (k ≤ size (list_to_set pool : gset Z))%nat →
  NoDup (choose_winners k pool winners draws)
  ∧ length (choose_winners k pool winners draws) = (length winners + k)%nat
  ∧ ∀ x, x ∈ choose_winners k pool winners draws → x ∈ winners ∨ x ∈ pool.
Proof.
  revert pool winners draws.
  induction k as [|k IH]; intros pool winners draws Hnd Hfresh Hk.
  { cbn [choose_winners]. split; [done|]. split; [lia|]. auto. }
  assert (pool ≠ []) as Hpool.
  { intros ->. cbn in Hk. rewrite size_empty in Hk. lia. }
  rewrite choose_winners_step by done. cbv zeta.
  assert (hd 0%nat draws `mod` length pool < length pool)%nat as Hj.
  { apply draw_in_range. destruct pool; [done|]. simpl. lia. }
  destruct (lookup_lt_is_Some_2 _ _ Hj) as [w Hw]. rewrite Hw. cbn [default].
  change (id w) with w.
  assert (w ∈ pool) as Hin by (by eapply list_elem_of_lookup_2).
  rewrite decide_False by (by apply Hfresh).
  destruct (IH (filter (fun p => p ≠ w) pool) (winners ++ [w]) (tl draws))
    as (H1 & H2 & H3).
  - apply NoDup_app. split; [done|]. split; [|apply NoDup_singleton].
    intros x Hx ->%list_elem_of_singleton. by apply (Hfresh w).
  - intros x [Hne Hx]%list_elem_of_filter.
    rewrite elem_of_app, list_elem_of_singleton.
    intros [?|?]; [by apply (Hfresh x)|done].
  - rewrite pool_without_winner by done. lia.
  - split; [done|]. split.
    + rewrite H2, length_app. simpl. lia.
    + intros x [Hx|Hx]%H3.
      * apply elem_of_app in Hx as [?|Hx]; [auto|].
        apply list_elem_of_singleton in Hx as ->. auto.
      * apply list_elem_of_filter in Hx as [_ ?]. auto.
Qed.

(** With positive entry counts the pool holds exactly the participants. *)
Lemma weighted_participants_distinct (p : list (Z * Z)) :
  dict_wf p → entries_positive p →
  size (list_to_set (weighted_participants p) : gset Z) = length p.
Proof.
  intros Hwf Hpos.
  assert ((list_to_set (weighted_participants p) : gset Z)
          = list_to_set (dict_keys p)) as ->.
  { apply set_eq. intros x. rewrite !elem_of_list_to_set. split.
    - apply weighted_participants_elem.
    - unfold dict_keys, weighted_participants.
      intros ([u n] & -> & Hun)%list_elem_of_fmap.
      apply list_elem_of_bind. exists (u, n). split; [|done].
      apply elem_of_replicate. split; [done|].
      unfold entries_positive in Hpos. rewrite Forall_forall in Hpos.
      specialize (Hpos _ Hun). simpl in Hpos. lia. }
  rewrite size_list_to_set by done. unfold dict_keys. by rewrite length_fmap.
Qed.

(** The shadowed definition of [end_giveaway] selects exactly
    [min(winners, number of participants)] distinct participants. *)
Lemma choose_winners_exact (g : giveaway) (draws : list nat) :
  dict_wf (participants g) → entries_positive (participants g) →
  0 ≤ winners g →
  let ws := choose_winners (Z.to_nat (wanted_winners g))
              (weighted_participants (participants g)) [] draws in
  NoDup ws
  ∧ Z.of_nat (length ws) = wanted_winners g
  ∧ ∀ w, w ∈ ws → w ∈ dict_keys (participants g).
Proof.
  intros Hwf Hpos Hw ws.
  destruct (choose_winners_inv (Z.to_nat (wanted_winners g))
              (weighted_participants (participants g)) [] draws)
    as (H1 & H2 & H3).
  - constructor.
  - intros x _. apply not_elem_of_nil.
  - rewrite weighted_participants_distinct by done.
    unfold wanted_winners. lia.
  - split; [done|]. split.
    + subst ws. rewrite H2. simpl. unfold wanted_winners. lia.
    + intros w [Hx|Hx]%H3; [by apply elem_of_nil in Hx|].
      by apply weighted_participants_elem.
Qed.

End ShadowedEndFacts.

Section JoinFacts.
Import Giveaway.
Implicit Types (data : gmap string giveaway) (gid : string) (g : giveaway).

(** The guard at the top of [join_giveaway]. *)
Lemma join_giveaway_guard data gid user_id roles level :
  (∀ g, data !! gid = Some g → gstatus g ≠ Active) →
  join_giveaway data gid user_id roles level = (data, NotActive).
Proof.
  intros H. unfold join_giveaway.
  destruct (data !! gid) as [g|] eqn:E; [|done].
  rewrite bool_decide_eq_false_2 by eauto. done.
Qed.

(** On an active giveaway the handler rejects for a missing role or a low
    level, or records the participant; it never answers "not active". *)
Lemma join_giveaway_active data gid g user_id roles level :
  data !! gid = Some g → gstatus g = Active →
  let p := add_participant g user_id roles in
  join_giveaway data gid user_id roles level = (data, MissingRequiredRole)
  ∨ join_giveaway data gid user_id roles level = (data, LevelTooLow)
  ∨ join_giveaway data gid user_id roles level
    = (<[gid := set_participants p g]> data,
       Joined (default 0 (dict_get user_id p))).
Proof.
  intros E Ha p. unfold join_giveaway. rewrite E.
  rewrite bool_decide_eq_true_2 by done. cbn [negb].
  destruct (negb _ && negb _); [by left|].
  destruct (_ && _ && _); [by right; left|].
  by right; right.
Qed.

(** The weight stored by the two statements that add a participant. *)
Lemma add_participant_get g user_id roles :
  dict_get user_id (add_participant g user_id roles)
  = Some match first_extra_entry (extra_entry_roles g) roles with
         | Some rc => entries rc
         | None => default 1 (dict_get user_id (participants g))
         end.
Proof.
  unfold add_participant.
  destruct (first_extra_entry _ _) as [rc|].
  - apply dict_get_set_eq.
  - destruct (dict_get user_id (participants g)) as [v|] eqn:E; [done|].
    apply dict_get_set_eq.
Qed.

Lemma add_participant_other g user_id roles u' :
  u' ≠ user_id →
  dict_get u' (add_participant g user_id roles) = dict_get u' (participants g).
Proof.
  intros Hne. unfold add_participant.
  destruct (first_extra_entry _ _) as [rc|];
    destruct (dict_get user_id (participants g)) as [v|] eqn:E;
    rewrite ?dict_get_set_ne by done; done.
Qed.

Lemma add_participant_length g user_id roles :
  length (add_participant g user_id roles)
  = match dict_get user_id (participants g) with
    | Some _ => length (participants g)
    | None => S (length (participants g))
    end.
Proof.
  unfold add_participant.
  destruct (first_extra_entry _ _) as [rc|];
    destruct (dict_get user_id (participants g)) as [v|] eqn:E;
    rewrite ?dict_set_length, ?dict_get_set_eq, ?E; done.
Qed.

Lemma add_participant_wf g user_id roles :
  dict_wf (participants g) → dict_wf (add_participant g user_id roles).
Proof.
  intros Hwf. unfold add_participant.
  destruct (first_extra_entry _ _) as [rc|];
    destruct (dict_get user_id (participants g)) as [v|] eqn:E;
    auto using dict_set_wf.
Qed.

(** C3.  After [end_giveaway] has been called for a giveaway, whatever that
    call did, every join for it is answered "no longer active" and leaves
    the state, the participants included, untouched, for any user, roles
    and level.  The join handler reads no clock. *)
Theorem join_after_end_not_active data gid channel_found draws
    user_id roles level :
  let data1 := (end_giveaway data gid channel_found draws).1 in
  join_giveaway data1 gid user_id roles level = (data1, NotActive).
Proof.
  intros data1. apply join_giveaway_guard.
  intros g1 H1. by eapply end_giveaway_not_active.
Qed.

(** C4 (counterexample).  The example giveaway is active and its end time
    100 has passed at time 200, yet a join is accepted and user 7 is added
    to the participants. *)
Lemma join_past_end_time_accepted :
  let now := 200 in
  gstatus giveaway_example = Active
  ∧ now >= end_time giveaway_example
  ∧ (join_giveaway data_example "gw" 7 [] 0).2 = Joined 1
  ∧ participants <$> (join_giveaway data_example "gw" 7 [] 0).1 !! "gw"
    = Some [(10, 3); (20, 1); (7, 1)].
Proof. vm_compute. repeat split; congruence. Qed.

(** C4 (amended).  A join is answered "not active" exactly when the
    giveaway is missing or its status is not active, and then nothing is
    modified.  The end time is not consulted: putting any other end time in
    the stored giveaway changes no answer, and changes the resulting state
    only by that end time. *)
Theorem join_not_active_iff_status data gid user_id roles level :
  let r := join_giveaway data gid user_id roles level in
  (r.2 = NotActive
   ↔ data !! gid = None ∨ ∃ g, data !! gid = Some g ∧ gstatus g ≠ Active)
  ∧ (r.2 = NotActive → r.1 = data)
  ∧ ∀ g t, data !! gid = Some g →
      join_giveaway (<[gid := set_end_time t g]> data) gid user_id roles level
      = (alter (set_end_time t) gid r.1, r.2).
Proof.
  intros r. subst r. split; [|split].
  - split.
    + intros Hr. destruct (data !! gid) as [g|] eqn:Hg; [|by left].
      right. exists g. split; [done|]. intros Ha.
      destruct (join_giveaway_active data gid g user_id roles level Hg Ha)
        as [H|[H|H]]; rewrite H in Hr; done.
    + intros Hn. rewrite join_giveaway_guard; [done|].
      intros g' Hg'. destruct Hn as [Hn|(g & Hg & Hn)]; congruence.
  - intros Hr. unfold join_giveaway in *.
    destruct (data !! gid) as [g|]; [|done].
    repeat match goal with
           | H : context [if ?b then _ else _] |- _ => destruct b
           end; done.
  - intros g t Hg. unfold join_giveaway. rewrite lookup_insert_eq, Hg.
    assert (alter (set_end_time t) gid data = <[gid := set_end_time t g]> data)
      as Hal.
    { apply map_eq. intros k. destruct (decide (k = gid)) as [->|Hne].
      - by rewrite lookup_alter_eq, lookup_insert_eq, Hg.
      - by rewrite lookup_alter_ne, lookup_insert_ne. }
    destruct g; cbn.
    repeat match goal with |- context [if ?b then _ else _] => destruct b end;
      cbn [fst snd]; rewrite ?Hal; try done.
    f_equal. apply map_eq. intros k. destruct (decide (k = gid)) as [->|Hne].
    + by rewrite lookup_alter_eq, !lookup_insert_eq.
    + by rewrite lookup_alter_ne, !lookup_insert_ne.
Qed.

Lemma join_not_active_iff_status_witness :
  (join_giveaway data_example "gone" 7 [] 0).2 = NotActive
  ∧ (join_giveaway data_example "gone" 7 [] 0).1 = data_example
  ∧ (join_giveaway (<["gw" := set_end_time 999 giveaway_example]> data_example)
                   "gw" 7 [] 0).2
    = (join_giveaway data_example "gw" 7 [] 0).2.
Proof.
  destruct (join_not_active_iff_status data_example "gone" 7 [] 0)
    as (Hiff & Hsame & _).
  assert (data_example !! "gone" = None) as Hnone by reflexivity.
  destruct (join_not_active_iff_status data_example "gw" 7 [] 0)
    as (_ & _ & Ht).
  assert (data_example !! "gw" = Some giveaway_example) as Hg by reflexivity.
  split; [exact (proj2 Hiff (or_introl Hnone))|].
  split; [exact (Hsame (proj2 Hiff (or_introl Hnone)))|].
  exact (f_equal snd (Ht giveaway_example 999 Hg)).
Defined.

(** C5 (counterexample).  A user holding roles 1 and 2 gets the 2 entries
    of the rule configured first although the highest matching rule gives 5;
    and a user who joined with 5 entries and now holds no configured role
    keeps 5 on joining again although the recomputed weight is 1. *)
Lemma join_weight_not_highest :
  (join_giveaway {["gw" := giveaway_rules_example]} "gw" 7 [1; 2] 0).2 = Joined 2
  ∧ highest_matching_weight (extra_entry_roles giveaway_rules_example) [1; 2] = 5
  ∧ (join_giveaway {["gw" := giveaway_rejoin_example]} "gw" 7 [] 0).2 = Joined 5
  ∧ highest_matching_weight (extra_entry_roles giveaway_rejoin_example) [] = 1.
Proof. vm_compute. done. Qed.

(** C5 (amended).  On a successful join the recorded weight is the entry
    count of the first rule, in configuration order, whose role the user
    holds; when no rule matches it is 1 for a new participant and the weight
    already stored for a returning one.  The weight is stored for the user
    alone: no other participant changes and the user occupies one entry of
    the mapping, so repeated joins do not accumulate. *)
Theorem join_weight_first_match data gid g user_id roles level data' w
    (Hg : data !! gid = Some g)
    (Hjoin : join_giveaway data gid user_id roles level = (data', Joined w)) :
  w = match first_extra_entry (extra_entry_roles g) roles with
      | Some rc => entries rc
      | None => default 1 (dict_get user_id (participants g))
      end
  ∧ (∀ rc, first_extra_entry (extra_entry_roles g) roles = Some rc →
       ∃ l1 l2, extra_entry_roles g = l1 ++ rc :: l2
                ∧ role_id rc ∈ roles
                ∧ Forall (fun rc' => role_id rc' ∉ roles) l1)
  ∧ ∃ g', data' !! gid = Some g'
      ∧ dict_get user_id (participants g') = Some w
      ∧ (∀ u', u' ≠ user_id →
           dict_get u' (participants g') = dict_get u' (participants g))
      ∧ length (participants g')
        = match dict_get user_id (participants g) with
          | Some _ => length (participants g)
          | None => S (length (participants g))
          end.
Proof.
  assert (gstatus g = Active) as Ha.
  { destruct (decide (gstatus g = Active)) as [|Hn]; [done|].
    rewrite join_giveaway_guard in Hjoin; [done|].
    intros g' Hg'. congruence. }
  destruct (join_giveaway_active data gid g user_id roles level Hg Ha)
    as [H|[H|H]]; rewrite H in Hjoin; [done|done|].
  injection Hjoin as <- <-.
  rewrite add_participant_get. cbn [default]. unfold id.
  split; [done|]. split.
  - intros rc (l1 & l2 & E & Hrc & Hl1)%find_first_split.
    exists l1, l2. split; [done|]. split; [by apply bool_decide_eq_true in Hrc|].
    eapply Forall_impl; [exact Hl1|]. intros rc' Hf.
    by apply bool_decide_eq_false in Hf.
  - eexists. rewrite lookup_insert_eq. split; [done|].
    cbn [participants set_participants].
    split; [apply add_participant_get|].
    split; [intros u' Hu'; by apply add_participant_other|].
    apply add_participant_length.
Qed.

Lemma join_weight_first_match_witness :
  ∃ w g', (join_giveaway {["gw" := giveaway_rules_example]} "gw" 7 [1; 2] 0).1 !! "gw"
          = Some g'
          ∧ dict_get 7 (participants g') = Some w ∧ w = 2.
Proof.
  assert (({["gw" := giveaway_rules_example]} : gmap string giveaway) !! "gw"
          = Some giveaway_rules_example) as Hg by reflexivity.
  assert (join_giveaway {["gw" := giveaway_rules_example]} "gw" 7 [1; 2] 0
          = ((join_giveaway {["gw" := giveaway_rules_example]} "gw" 7 [1; 2] 0).1,
             Joined 2)) as Hjoin by reflexivity.
  destruct (join_weight_first_match _ _ _ _ _ _ _ _ Hg Hjoin)
    as (Hw & _ & g' & Hg' & Hget & _).
  exists 2, g'. split; [exact Hg'|]. split; [exact Hget|reflexivity].
Defined.

End JoinFacts.

(* ===================================================================== *)
(** * Properties of the invite tracker *)
(* ===================================================================== *)

Section InviteFacts.
Import Invites.
Implicit Types (d : invite_data) (cur : list invite) (u : invite)
  (c : gmap string cached_invite) (ms : gmap Z member_rec).

(** Unfold one handler body down to map operations. *)
Ltac unfold_body :=
  unfold attribute, bind, get_invites, get_members, put_invites, put_members,
    subscript, read_local, ret, raise;
  cbn [invites members].

Ltac step_maps :=
  repeat (first [ rewrite lookup_insert_eq
                | rewrite lookup_insert_ne by done
                | rewrite lookup_empty
                | rewrite insert_insert_eq ];
          cbn [total_invites left_invites recent_invites invited_by
               invite_code join_timestamp invites members]).

Lemma refresh_cache_cons inv cur d :
  refresh_cache (inv :: cur) d
  = match invites d with
    | Some c =>
        refresh_cache cur (Data (Some (<[code inv := cache_entry inv]> c))
                                (members d))
    | None => (d, inl KeyError)
    end.
Proof.
  unfold refresh_cache. cbn [for_each]. unfold_body.
  by destruct (invites d).
Qed.

(** The refresh loop never touches the members. *)
Lemma refresh_cache_members cur d :
  members (refresh_cache cur d).1 = members d.
Proof.
  revert d. induction cur as [|inv cur IH]; intros d; [done|].
  rewrite refresh_cache_cons. destruct (invites d) as [c|]; [|done].
  by rewrite IH.
Qed.

(** With a cache present the loop stores every invite of the snapshot. *)
Lemma refresh_cache_cached cur c (mo : option (gmap Z member_rec)) :
  refresh_cache cur (Data (Some c) mo)
  = (Data (Some (foldl (fun c inv => <[code inv := cache_entry inv]> c) c cur))
          mo, inr tt).
Proof.
  revert c. induction cur as [|inv cur IH]; intros c; [done|].
  rewrite refresh_cache_cons. cbn [invites members foldl]. apply IH.
Qed.

(** Without the ["invites"] key the loop fails at its first iteration. *)
Lemma refresh_cache_uncached cur d :
  invites d = None →
  refresh_cache cur d = (d, match cur with [] => inr tt | _ => inl KeyError end).
Proof.
  intros E. destruct cur as [|inv cur]; [done|].
  by rewrite refresh_cache_cons, E.
Qed.

Lemma refresh_cache_result cur d :
  (refresh_cache cur d).2 = inr tt ∨ (refresh_cache cur d).2 = inl KeyError.
Proof.
  destruct d as [[c|] mo].
  - rewrite refresh_cache_cached. by left.
  - rewrite refresh_cache_uncached by done. destruct cur; [by left|by right].
Qed.

(** The calls that follow an attribution never change the state. *)
Lemma send_welcome_state i env cur d : (send_welcome i env cur d).1 = d.
Proof.
  unfold send_welcome. destruct (welcome_channel env); [|done].
  unfold bind, get_members, subscript, platform_call, ret, raise.
  destruct (members d) as [ms|]; [|done].
  destruct (ms !! i) as [r|]; [|done].
  destruct (total_invites r) as [t|]; [|done].
  by destruct (welcome_send env).
Qed.

(** With a welcome channel the name [current_invites] is never bound to the
    invite list again. *)
Lemma send_welcome_rebinds i env cur d l :
  welcome_channel env = true →
  (send_welcome i env cur d).2 ≠ inr (InviteList l).
Proof.
  intros Hw. unfold send_welcome. rewrite Hw.
  unfold bind, get_members, subscript, platform_call, ret, raise.
  destruct (members d) as [ms|]; [|done].
  destruct (ms !! i) as [r|]; [|done].
  destruct (total_invites r) as [t|]; [|done].
  by destruct (welcome_send env).
Qed.

(** The handler, one case per path through its body. *)
Lemma handle_member_join_unfold m cur now env d :
  handle_member_join_invite_tracking m cur now env d
  = let unattributed :=
      match refresh_cache cur d with
      | (d', inr _) => (d', Done None)
      | (d', inl e) => (d', Logged e)
      end in
    match find_used (default ∅ (invites d)) cur with
    | Some u =>
        match inviter u with
        | Some i =>
            match attribute u i m now d with
            | (d', inr _) =>
                match roles_update env with
                | Some e => (d', Logged e)
                | None =>
                    match send_welcome i env cur d' with
                    | (d2, inr rebound) =>
                        match cache_new_states rebound d2 with
                        | (d3, inr _) => (d3, Done (Some (i, code u)))
                        | (d3, inl e) => (d3, Logged e)
                        end
                    | (d2, inl e) => (d2, Logged e)
                    end
                end
            | (d', inl e) => (d', Logged e)
            end
        | None => unattributed
        end
    | None => unattributed
    end.
Proof.
  unfold handle_member_join_invite_tracking, join_body.
  cbv zeta. destruct (find_used _ _) as [u|].
  - destruct (inviter u) as [i|].
    + unfold bind.
      destruct (attribute u i m now d) as [d' [e|[]]]; [done|].
      unfold platform_call. destruct (roles_update env) as [e|]; [done|].
      unfold ret at 1.
      destruct (send_welcome i env cur d') as [d2 [e|rebound]]; [done|].
      unfold ret. cbn [snd fst].
      by destruct (cache_new_states rebound d2) as [d3 [e|[]]].
    + unfold bind, ret. cbn [snd fst cache_new_states].
      by destruct (refresh_cache cur d) as [d' [e|[]]].
  - unfold bind, ret. cbn [snd fst cache_new_states].
    by destruct (refresh_cache cur d) as [d' [e|[]]].
Qed.

(** The part of the body that follows a completed attribution: it ends
    with the attribution reported only when the milestone update does not
    raise and no welcome is sent, and then it is the refresh loop that
    ran. *)
Lemma after_attribution_cases i (a : Z * string) env cur d' :
  let fin :=
    match roles_update env with
    | Some e => (d', Logged e)
    | None =>
        match send_welcome i env cur d' with
        | (d2, inr rebound) =>
            match cache_new_states rebound d2 with
            | (d3, inr _) => (d3, Done (Some a))
            | (d3, inl e) => (d3, Logged e)
            end
        | (d2, inl e) => (d2, Logged e)
        end
    end in
  (roles_update env = None ∧ welcome_channel env = false
   ∧ fin = match refresh_cache cur d' with
           | (d3, inr _) => (d3, Done (Some a))
           | (d3, inl e) => (d3, Logged e)
           end)
  ∨ ((roles_update env ≠ None ∨ welcome_channel env = true)
     ∧ fin.1 = d' ∧ ∃ e, fin.2 = Logged e).
Proof.
  cbv zeta. destruct (roles_update env) as [e|] eqn:Er.
  { right. split; [by left|]. split; [done|]. by exists e. }
  destruct (welcome_channel env) eqn:Ew.
  - right. split; [by right|].
    pose proof (send_welcome_state i env cur d') as Hs.
    pose proof (send_welcome_rebinds i env cur d') as Hb.
    destruct (send_welcome i env cur d') as [d2 [e|rebound]];
      cbn [fst snd] in Hs, Hb; subst d2.
    + split; [done|]. by exists e.
    + destruct rebound as [l|n].
      * by destruct (Hb l Ew).
      * cbn [cache_new_states]. unfold raise. cbn [fst snd].
        split; [done|]. by exists TypeError.
  - left. split; [done|]. split; [done|].
    unfold send_welcome. rewrite Ew. unfold ret. done.
Qed.

(** The attributed branch when ["members"] already exists: [inviter_id] was
    never assigned. *)
Lemma attribute_with_members u i m now d ms :
  members d = Some ms →
  attribute u i m now d
  = match invites d with
    | Some c =>
        match c !! code u with
        | Some e0 =>
            (Data (Some (<[code u := Cached (uses u) (c_inviter_id e0)
                                            (c_channel_id e0) (c_created_at e0)]> c))
                  (Some ms), inl UnboundLocalError)
        | None => (d, inl KeyError)
        end
    | None => (d, inl KeyError)
    end.
Proof.
  intros E. unfold_body. destruct (invites d) as [c|]; [|done].
  destruct (c !! code u) as [e0|]; [|done].
  cbn [invites members]. by rewrite E.
Qed.

(** The attributed branch when the used invite is not in the cache. *)
Lemma attribute_uncached u i m now d :
  invites d ≫= (fun c => c !! code u) = None →
  attribute u i m now d = (d, inl KeyError).
Proof.
  intros E. unfold_body. destruct (invites d) as [c|]; [|done].
  cbn in E. by rewrite E.
Qed.

(** The attributed branch on a guild that has no ["members"] yet. *)
Lemma attribute_first u i m now c e0 :
  c !! code u = Some e0 → i ≠ m →
  attribute u i m now (Data (Some c) None)
  = (Data (Some (<[code u := Cached (uses u) (c_inviter_id e0)
                                    (c_channel_id e0) (c_created_at e0)]> c))
          (Some (<[m := Member None None None (Some i) (Some (code u)) (Some now)]>
                   (<[i := Member (Some 1) (Some 0) (Some [(m, now)])
                                  None None None]> ∅))),
     inr tt).
Proof.
  intros Hc Hne. unfold_body. rewrite Hc. cbn [invites members].
  step_maps. unfold empty_rec. cbn [total_invites]. reflexivity.
Qed.

Lemma attribute_first_self u i now c e0 :
  c !! code u = Some e0 →
  attribute u i i now (Data (Some c) None)
  = (Data (Some (<[code u := Cached (uses u) (c_inviter_id e0)
                                    (c_channel_id e0) (c_created_at e0)]> c))
          (Some (<[i := Member (Some 1) (Some 0) (Some [(i, now)])
                               None None None]> ∅)),
     inr tt).
Proof.
  intros Hc. unfold_body. rewrite Hc. cbn [invites members].
  step_maps. reflexivity.
Qed.

(** The attribution block runs to its end only on a guild without
    ["members"], through a cached invite; this is the state it leaves. *)
Lemma attribute_returns u i m now d d' :
  attribute u i m now d = (d', inr tt) →
  members d = None
  ∧ ∃ c e0, invites d = Some c ∧ c !! code u = Some e0
      ∧ d' = Data (Some (<[code u := Cached (uses u) (c_inviter_id e0)
                                            (c_channel_id e0) (c_created_at e0)]> c))
                  (Some (if decide (i = m)
                         then <[i := Member (Some 1) (Some 0) (Some [(i, now)])
                                            None None None]> ∅
                         else <[m := Member None None None (Some i)
                                            (Some (code u)) (Some now)]>
                                (<[i := Member (Some 1) (Some 0)
                                               (Some [(m, now)])
                                               None None None]> ∅))).
Proof.
  intros H. destruct (members d) as [ms|] eqn:E.
  { rewrite (attribute_with_members _ _ _ _ _ ms E) in H.
    destruct (invites d) as [c|]; [|done]. by destruct (c !! code u). }
  split; [done|]. destruct d as [[c|] mo]; cbn [members] in E; subst mo.
  2:{ by rewrite attribute_uncached in H. }
  destruct (c !! code u) as [e0|] eqn:Hc.
  2:{ by rewrite attribute_uncached in H. }
  exists c, e0. split; [done|]. split; [done|].
  destruct (decide (i = m)) as [->|Hne].
  - rewrite (attribute_first_self _ _ _ _ _ Hc) in H. by injection H as <-.
  - rewrite (attribute_first _ _ _ _ _ _ Hc Hne) in H. by injection H as <-.
Qed.

(** The first attributed join of a guild, whatever the platform calls do:
    the inviter of the used invite is credited and the invitee recorded;
    the cache is refreshed and the attribution reported only when the
    milestone update does not raise and no welcome is sent. *)
Lemma join_first m cur now env c u i e0 :
  find_used c cur = Some u → inviter u = Some i → c !! code u = Some e0 →
  let c1 := <[code u := Cached (uses u) (c_inviter_id e0)
                               (c_channel_id e0) (c_created_at e0)]> c in
  let ms1 := if decide (i = m)
             then <[i := Member (Some 1) (Some 0) (Some [(i, now)])
                                None None None]> ∅
             else <[m := Member None None None (Some i) (Some (code u))
                                (Some now)]>
                    (<[i := Member (Some 1) (Some 0) (Some [(m, now)])
                                   None None None]> ∅) in
  handle_member_join_invite_tracking m cur now env (Data (Some c) None)
  = match roles_update env with
    | Some e => (Data (Some c1) (Some ms1), Logged e)
    | None =>
        if welcome_channel env
        then (Data (Some c1) (Some ms1),
              Logged (default TypeError (welcome_send env)))
        else (Data (Some (foldl (fun c inv => <[code inv := cache_entry inv]> c)
                                c1 cur)) (Some ms1),
              Done (Some (i, code u)))
    end.
Proof.
  intros Hu Hi Hc c1 ms1. rewrite handle_member_join_unfold. cbv zeta.
  cbn [invites default]. change (id c) with c. rewrite Hu, Hi.
  assert (attribute u i m now (Data (Some c) None)
          = (Data (Some c1) (Some ms1), inr tt)) as ->.
  { subst c1 ms1. destruct (decide (i = m)) as [->|Hne].
    - by apply attribute_first_self.
    - by apply attribute_first. }
  destruct (roles_update env) as [e|]; [done|].
  destruct (welcome_channel env) eqn:Ew.
  - assert (∃ r t, ms1 !! i = Some r ∧ total_invites r = Some t)
      as (r & t & Hr & Ht).
    { subst ms1. destruct (decide (i = m)) as [->|Hne].
      - eexists _, _. by rewrite lookup_insert_eq.
      - eexists _, _. by rewrite lookup_insert_ne, lookup_insert_eq. }
    unfold send_welcome. rewrite Ew.
    unfold bind, get_members, subscript, platform_call, ret, raise.
    cbn [members]. rewrite Hr, Ht.
    by destruct (welcome_send env).
  - unfold send_welcome. rewrite Ew. unfold ret.
    cbn [cache_new_states]. by rewrite refresh_cache_cached.
Qed.

(** Once ["members"] exists the join handler never changes it: the
    attributed path stops at [inviter_id], the other path only refreshes the
    cache. *)
Lemma join_members_kept m cur now env d ms :
  members d = Some ms →
  members (handle_member_join_invite_tracking m cur now env d).1 = Some ms.
Proof.
  intros E. rewrite handle_member_join_unfold. cbv zeta.
  assert (members (match refresh_cache cur d with
                   | (d', inr _) => (d', Done (@None (Z * string)))
                   | (d', inl e) => (d', Logged e)
                   end).1 = Some ms) as Hun.
  { rewrite <- E, <- (refresh_cache_members cur d).
    by destruct (refresh_cache cur d) as [d' [e|[]]]. }
  destruct (find_used _ _) as [u|]; [|done].
  destruct (inviter u) as [i|]; [|done].
  rewrite (attribute_with_members _ _ _ _ _ ms E).
  destruct (invites d) as [c|]; [|done].
  by destruct (c !! code u).
Qed.

(** A join that is not attributed, or whose attribution block raises,
    leaves the members as they are. *)
Lemma join_unattributed_members m cur now env d :
  (∀ u i, find_used (default ∅ (invites d)) cur = Some u →
          inviter u = Some i → (attribute u i m now d).2 ≠ inr tt) →
  members (handle_member_join_invite_tracking m cur now env d).1 = members d.
Proof.
  intros Hno. rewrite handle_member_join_unfold. cbv zeta.
  assert (members (match refresh_cache cur d with
                   | (d', inr _) => (d', Done (@None (Z * string)))
                   | (d', inl e) => (d', Logged e)
                   end).1 = members d) as Hun.
  { rewrite <- (refresh_cache_members cur d).
    by destruct (refresh_cache cur d) as [d' [e|[]]]. }
  destruct (find_used _ _) as [u|]; [|done].
  destruct (inviter u) as [i|] eqn:Hi; [|done].
  specialize (Hno u i eq_refl Hi).
  destruct (members d) as [ms|] eqn:E.
  - rewrite (attribute_with_members _ _ _ _ _ ms E).
    destruct (invites d) as [c|]; [|exact E].
    destruct (c !! code u); [done|exact E].
  - destruct (attribute u i m now d) as [d' [e|[]]] eqn:Ha.
    + destruct d as [[c|] mo]; cbn [members] in E; subst mo.
      2:{ rewrite attribute_uncached in Ha by done. by injection Ha as <- _. }
      destruct (c !! code u) as [e0|] eqn:Hc.
      2:{ rewrite attribute_uncached in Ha by done. by injection Ha as <- _. }
      destruct (decide (i = m)) as [->|Hne].
      * by rewrite (attribute_first_self _ _ _ _ _ Hc) in Ha.
      * by rewrite (attribute_first _ _ _ _ _ _ Hc Hne) in Ha.
    + by destruct Hno.
Qed.

(** What the join handler can do to a guild without ["members"]. *)
Lemma join_fresh_members m cur now env d :
  members d = None →
  let d' := (handle_member_join_invite_tracking m cur now env d).1 in
  members d' = None
  ∨ ∃ u i, find_used (default ∅ (invites d)) cur = Some u
      ∧ inviter u = Some i
      ∧ (attribute u i m now d).2 = inr tt
      ∧ members d'
        = Some (if decide (i = m)
                then <[i := Member (Some 1) (Some 0) (Some [(i, now)])
                                   None None None]> ∅
                else <[m := Member None None None (Some i) (Some (code u))
                                   (Some now)]>
                       (<[i := Member (Some 1) (Some 0) (Some [(m, now)])
                                      None None None]> ∅)).
Proof.
  intros E. cbv zeta.
  destruct (find_used (default ∅ (invites d)) cur) as [u|] eqn:Hu.
  2:{ left. rewrite join_unattributed_members; [done|]. intros; congruence. }
  destruct (inviter u) as [i|] eqn:Hi.
  2:{ left. rewrite join_unattributed_members; [done|]. intros; congruence. }
  destruct d as [[c|] mo]; cbn [members] in E; subst mo.
  2:{ left. rewrite join_unattributed_members; [done|].
      intros u' i' _ _. by rewrite attribute_uncached. }
  destruct (c !! code u) as [e0|] eqn:Hc.
  2:{ left. rewrite join_unattributed_members; [done|].
      intros u' i' Hu' Hi'. rewrite Hu in Hu'. injection Hu' as <-.
      by rewrite attribute_uncached. }
  right. exists u, i. split; [done|]. split; [done|].
  cbn [invites default] in Hu. change (id c) with c in Hu.
  split.
  { destruct (decide (i = m)) as [->|Hne].
    - by rewrite (attribute_first_self _ _ _ _ _ Hc).
    - by rewrite (attribute_first _ _ _ _ _ _ Hc Hne). }
  rewrite (join_first m cur now env c u i e0 Hu Hi Hc).
  destruct (roles_update env); [done|]. by destruct (welcome_channel env).
Qed.

(** A join that reports an attribution happened on a guild without
    ["members"], through a cached invite. *)
Lemma join_attributed_inv m cur now env d d' i code_ :
  handle_member_join_invite_tracking m cur now env d
  = (d', Done (Some (i, code_))) →
  members d = None
  ∧ members d'
    = Some (if decide (i = m)
            then <[i := Member (Some 1) (Some 0) (Some [(i, now)])
                               None None None]> ∅
            else <[m := Member None None None (Some i) (Some code_) (Some now)]>
                   (<[i := Member (Some 1) (Some 0) (Some [(m, now)])
                                  None None None]> ∅)).
Proof.
  intros H.
  assert (∃ u, find_used (default ∅ (invites d)) cur = Some u
               ∧ inviter u = Some i ∧ code u = code_
               ∧ ∃ d1, attribute u i m now d = (d1, inr tt)) as (u & Hu & Hi & Hcode & d1 & Ha).
  { revert H. rewrite handle_member_join_unfold. cbv zeta.
    destruct (find_used _ _) as [u|].
    2:{ by destruct (refresh_cache cur d) as [d1 [e|[]]]. }
    destruct (inviter u) as [i'|] eqn:Hi'.
    2:{ by destruct (refresh_cache cur d) as [d1 [e|[]]]. }
    destruct (attribute u i' m now d) as [d1 [e|[]]] eqn:Ha; [done|].
    destruct (roles_update env); [done|].
    destruct (send_welcome i' env cur d1) as [d2 [e|rebound]]; [done|].
    destruct (cache_new_states rebound d2) as [d3 [e|[]]]; [done|].
    intros [= _ -> Hcode]. exists u. split; [done|]. split; [done|].
    split; [done|]. by exists d1. }
  destruct (attribute_returns _ _ _ _ _ _ Ha) as (E & c & e0 & Hc & Hce & _).
  split; [done|].
  destruct d as [io mo]. cbn [invites members] in Hc, E. subst io mo.
  cbn [invites default] in Hu. change (id c) with c in Hu.
  rewrite (join_first m cur now env c u i e0 Hu Hi Hce) in H.
  destruct (roles_update env); [done|].
  destruct (welcome_channel env); [done|].
  injection H as <-. cbn [members]. by rewrite Hcode.
Qed.

(** The leave handler changes no invitee field and keeps ["members"]. *)
Lemma leave_invitee_fields m d j :
  invitee_fields (handle_member_leave_invite_tracking m d) j
  = invitee_fields d j.
Proof.
  unfold handle_member_leave_invite_tracking.
  destruct (invited_by _) as [i|]; [|done].
  destruct (decide (i = 0)); [done|].
  destruct (members d) as [ms|] eqn:E; [|done].
  destruct (ms !! i) as [r|] eqn:Hr; [|done].
  unfold invitee_fields, member_of. rewrite E. cbn [members default].
  destruct (decide (i = j)) as [->|Hne].
  - unfold id. rewrite lookup_insert_eq, Hr. done.
  - unfold id. by rewrite lookup_insert_ne.
Qed.

Lemma leave_members_is_Some m d :
  is_Some (members d) →
  is_Some (members (handle_member_leave_invite_tracking m d)).
Proof.
  intros H. unfold handle_member_leave_invite_tracking.
  destruct (invited_by _) as [i|]; [|done].
  destruct (decide (i = 0)); [done|].
  destruct (members d) as [ms|] eqn:E; [|done].
  destruct (ms !! i) as [r|]; [by eexists|by rewrite E].
Qed.

Lemma step_invitee_fields d ev j :
  is_Some (members d) →
  invitee_fields (step d ev) j = invitee_fields d j
  ∧ is_Some (members (step d ev)).
Proof.
  intros [ms E]. destruct ev as [m cur now env|m]; cbn [step].
  - pose proof (join_members_kept m cur now env d ms E) as Hk.
    unfold invitee_fields, member_of. rewrite Hk, E. eauto.
  - split; [apply leave_invitee_fields|].
    apply leave_members_is_Some. eauto.
Qed.

(** No sequence of joins and leaves changes an invitee field once
    ["members"] exists. *)
Lemma run_invitee_fields d evs j :
  is_Some (members d) →
  invitee_fields (run d evs) j = invitee_fields d j.
Proof.
  revert d. induction evs as [|ev evs IH]; intros d H; [done|].
  cbn [run foldl]. destruct (step_invitee_fields d ev j H) as [Hf Hs].
  fold (run (step d ev) evs). by rewrite IH.
Qed.

(** Without ["members"] nobody has invitee fields. *)
Lemma invitee_fields_fresh d j :
  members d = None → invitee_fields d j = (None, None, None).
Proof.
  intros E. unfold invitee_fields, member_of. rewrite E. cbn [default].
  unfold id. by rewrite lookup_empty.
Qed.

(** C7 (counterexample).  Invite "x" rose by 1 and invite "y" by 3, so "y"
    is the single invite with the largest positive delta; the handler
    credits the inviter of "x", the first increased invite of the snapshot,
    and leaves the inviter of "y" without a record.  When both rose by 1 it
    credits "x" as well. *)
Lemma attribution_takes_first_increase :
  use_delta cache_example (Invite "x" 1 (Some 5) None None) = 1
  ∧ use_delta cache_example (Invite "y" 3 (Some 6) None None) = 3
  ∧ (handle_member_join_invite_tracking 77 snapshot_x1_y3 1000 quiet
       fresh_example).2
    = Done (Some (5, "x"))
  ∧ (member_of (handle_member_join_invite_tracking 77 snapshot_x1_y3 1000
                  quiet fresh_example).1 5 ≫= total_invites) = Some 1
  ∧ member_of (handle_member_join_invite_tracking 77 snapshot_x1_y3 1000
                 quiet fresh_example).1 6 = None
  ∧ (handle_member_join_invite_tracking 77 snapshot_x1_y1 1000 quiet
       fresh_example).2
    = Done (Some (5, "x")).
Proof. vm_compute. done. Qed.

(** C7 (amended).  The used invite is the first invite of the snapshot, in
    order, whose use count exceeds the cached count, however many invites
    increased and by how much.  When no invite increased, or the used invite
    has no inviter, the join is un-attributed: the call only runs the
    refresh loop, and the members' statistics are unchanged.  When the used
    invite has an inviter, it is that inviter and nobody else who is
    credited: on a guild without members table and with the invite cached,
    the table afterwards holds exactly the inviter of the used invite with
    1 total invite, 0 left invites and the joining member as recent invite,
    and the joining member's invitee data (unless the member is that
    inviter); in every other state the members are unchanged and an error
    is logged.  The handler always returns: an exception of its body, also
    one raised by the milestone update or the welcome message after the
    statistics were written, is caught and reported as logged. *)
Theorem attribution_first_increase m cur now env d :
  let cached_invites := default ∅ (invites d) in
  let r := handle_member_join_invite_tracking m cur now env d in
  let unattributed :=
    r.1 = (refresh_cache cur d).1
    ∧ members r.1 = members d
    ∧ (r.2 = Done None ∨ r.2 = Logged KeyError) in
  match find_used cached_invites cur with
  | None =>
      Forall (fun v => ¬ uses v > cached_uses cached_invites v) cur
      ∧ unattributed
  | Some u =>
      (∃ l1 l2, cur = l1 ++ u :: l2
                ∧ uses u > cached_uses cached_invites u
                ∧ Forall (fun v => ¬ uses v > cached_uses cached_invites v) l1)
      ∧ match inviter u with
        | Some i =>
            match invites d ≫= (fun c => c !! code u) with
            | None => r = (d, Logged KeyError)
            | Some e0 =>
                let cache_updated :=
                  insert (code u) (Cached (uses u) (c_inviter_id e0)
                                          (c_channel_id e0) (c_created_at e0))
                  <$> invites d in
                match members d with
                | Some ms =>
                    r = (Data cache_updated (Some ms), Logged UnboundLocalError)
                | None =>
                    let credited :=
                      Data cache_updated
                        (Some (if decide (i = m)
                               then <[i := Member (Some 1) (Some 0)
                                                  (Some [(i, now)])
                                                  None None None]> ∅
                               else <[m := Member None None None (Some i)
                                                  (Some (code u)) (Some now)]>
                                      (<[i := Member (Some 1) (Some 0)
                                                     (Some [(m, now)])
                                                     None None None]> ∅))) in
                    r = match roles_update env with
                        | Some e => (credited, Logged e)
                        | None =>
                            if welcome_channel env
                            then (credited,
                                  Logged (default TypeError (welcome_send env)))
                            else ((refresh_cache cur credited).1,
                                  Done (Some (i, code u)))
                        end
                end
            end
        | None => unattributed
        end
  end.
Proof.
  intros cached_invites r unattributed.
  assert (find_used cached_invites cur = None
          ∨ (∃ u, find_used cached_invites cur = Some u ∧ inviter u = None)
          → unattributed) as Hun.
  { intros Hcase.
    assert (r = match refresh_cache cur d with
                | (d', inr _) => (d', Done None)
                | (d', inl e) => (d', Logged e)
                end) as ->.
    { subst r. rewrite handle_member_join_unfold. cbv zeta.
      fold cached_invites.
      destruct Hcase as [->|(u & -> & ->)]; done. }
    pose proof (refresh_cache_members cur d) as Hm.
    pose proof (refresh_cache_result cur d) as Hr.
    destruct (refresh_cache cur d) as [d' [e|[]]]; cbn [fst snd] in *.
    - split; [done|]. split; [done|].
      destruct Hr as [Hr|Hr]; [done|]. injection Hr as ->. by right.
    - split; [done|]. split; [done|]. by left. }
  destruct (find_used cached_invites cur) as [u|] eqn:Hf.
  - split.
    + apply find_first_split in Hf as (l1 & l2 & -> & Hu & Hl1).
      exists l1, l2. split; [done|].
      split; [by apply bool_decide_eq_true in Hu|].
      eapply Forall_impl; [exact Hl1|]. intros v Hv.
      by apply bool_decide_eq_false in Hv.
    + destruct (inviter u) as [i|] eqn:Hi.
      2:{ apply Hun. right. by exists u. }
      destruct (invites d ≫= (fun c => c !! code u)) as [e0|] eqn:Hc.
      2:{ subst r. rewrite handle_member_join_unfold. cbv zeta.
          fold cached_invites. rewrite Hf, Hi.
          by rewrite attribute_uncached. }
      cbv zeta.
      destruct d as [[c|] mo]; [|done]. cbn in Hc.
      cbn [invites fmap option_fmap option_map].
      destruct mo as [ms|]; cbn [members].
      * subst r. rewrite handle_member_join_unfold. cbv zeta.
        fold cached_invites. rewrite Hf, Hi.
        rewrite (attribute_with_members u i m now (Data (Some c) (Some ms)) ms
                   eq_refl).
        cbn [invites]. by rewrite Hc.
      * subst r cached_invites.
        cbn [invites default] in Hf. change (id c) with c in Hf.
        rewrite (join_first m cur now env c u i e0 Hf Hi Hc).
        destruct (roles_update env); [done|].
        destruct (welcome_channel env); [done|].
        by rewrite refresh_cache_cached.
  - split; [|by apply Hun; left].
    apply find_none_all in Hf.
    eapply Forall_impl; [exact Hf|]. intros v Hv.
    by apply bool_decide_eq_false in Hv.
Qed.

Lemma attribution_first_increase_witness :
  handle_member_join_invite_tracking 77 snapshot_x1_y3 1000
    (Platform None true None) fresh_example
  = (Data (Some (<["x" := Cached 1 (Some 5) None None]> cache_example))
          (Some (<[77 := Member None None None (Some 5) (Some "x") (Some 1000)]>
                   (<[5 := Member (Some 1) (Some 0) (Some [(77, 1000)])
                                  None None None]> ∅))),
     Logged TypeError).
Proof.
  exact (proj2 (attribution_first_increase 77 snapshot_x1_y3 1000
                  (Platform None true None) fresh_example)).
Defined.

(** C8 (counterexample).  User 5 joins through the own invite "x" on a
    guild without members table: the join is attributed to user 5, who
    gets inviter statistics, and no invitee field is written, neither by
    this first attribution nor by anything that follows. *)
Lemma join_own_invite_writes_no_fields :
  let r := handle_member_join_invite_tracking 5 snapshot_x1 1000 quiet
             fresh_example in
  r.2 = Done (Some (5, "x"))
  ∧ member_of r.1 5 ≫= total_invites = Some 1
  ∧ invitee_fields r.1 5 = (None, None, None)
  ∧ invitee_fields (run r.1 [Leave 5; Join 5 snapshot_x2 2000 quiet]) 5
    = (None, None, None).
Proof. vm_compute. done. Qed.

(** C8 (amended).  The join handler writes invitee fields in one situation
    only: when the attribution block of the call runs to its end and the
    joining member is not the inviter of the used invite.  Then the member
    had no invitee data before and has [invited_by], [invite_code] and
    [join_timestamp] of this join afterwards, also when the call goes on to
    log an error of the milestone update or of the welcome message.  A
    member who is the inviter of the used invite gets no invitee field.
    Any other call, and a leave, changes no invitee field of anybody; and
    fields once written stay as they are through every later sequence of
    joins and leaves, whatever members, snapshots and platform behaviour
    they carry.  The attribution block runs to its end exactly on a guild
    without members table whose cache holds the used invite. *)
Theorem invitee_fields_written_once m cur now env d :
  let r := handle_member_join_invite_tracking m cur now env d in
  (∀ u i, find_used (default ∅ (invites d)) cur = Some u →
          inviter u = Some i →
          (attribute u i m now d).2 = inr tt →
          invitee_fields d m = (None, None, None)
          ∧ invitee_fields r.1 m
            = if decide (i = m) then (None, None, None)
              else (Some i, Some (code u), Some now))
  ∧ (∀ j, invitee_fields r.1 j ≠ invitee_fields d j →
          j = m
          ∧ ∃ u i, find_used (default ∅ (invites d)) cur = Some u
              ∧ inviter u = Some i ∧ i ≠ m
              ∧ (attribute u i m now d).2 = inr tt
              ∧ invitee_fields r.1 m = (Some i, Some (code u), Some now))
  ∧ (∀ d0 evs j, invitee_fields d0 j ≠ (None, None, None) →
                 invitee_fields (run d0 evs) j = invitee_fields d0 j)
  ∧ (∀ u i, (attribute u i m now d).2 = inr tt
            ↔ members d = None
              ∧ is_Some (invites d ≫= (fun c => c !! code u))).
Proof.
  intros r.
  assert (∀ u i, (attribute u i m now d).2 = inr tt
                 ↔ members d = None
                   ∧ is_Some (invites d ≫= (fun c => c !! code u))) as Hret.
  { intros u i. split.
    - intros Ha. destruct (attribute u i m now d) as [d1 [e|[]]] eqn:Ha';
        [done|].
      destruct (attribute_returns _ _ _ _ _ _ Ha') as (E & c & e0 & Hc & Hce & _).
      split; [done|]. rewrite Hc. cbn. by eexists.
    - intros [E [e0 Hc]]. destruct d as [[c|] mo]; [|done].
      cbn [members] in E. subst mo. cbn in Hc.
      destruct (decide (i = m)) as [->|Hne].
      + by rewrite (attribute_first_self _ _ _ _ _ Hc).
      + by rewrite (attribute_first _ _ _ _ _ _ Hc Hne). }
  assert (∀ u i, find_used (default ∅ (invites d)) cur = Some u →
                 inviter u = Some i →
                 (attribute u i m now d).2 = inr tt →
                 members d = None
                 ∧ members r.1
                   = Some (if decide (i = m)
                           then <[i := Member (Some 1) (Some 0) (Some [(i, now)])
                                              None None None]> ∅
                           else <[m := Member None None None (Some i)
                                              (Some (code u)) (Some now)]>
                                  (<[i := Member (Some 1) (Some 0)
                                                 (Some [(m, now)])
                                                 None None None]> ∅))) as Hwr.
  { intros u i Hu Hi Ha.
    destruct (attribute u i m now d) as [d1 [e|[]]] eqn:Ha'; [done|].
    destruct (attribute_returns _ _ _ _ _ _ Ha') as (E & _).
    split; [done|].
    destruct (join_fresh_members m cur now env d E)
      as [Hn|(u' & i' & Hu' & Hi' & _ & Hm)].
    - exfalso. fold r in Hn.
      assert (members r.1 = members d1) as Hk.
      { subst r. rewrite handle_member_join_unfold. cbv zeta.
        rewrite Hu, Hi, Ha'.
        destruct (after_attribution_cases i (i, code u) env cur d1)
          as [(_ & _ & ->)|(_ & -> & _)]; [|done].
        rewrite <- (refresh_cache_members cur d1).
        by destruct (refresh_cache cur d1) as [d3 [e|[]]]. }
      destruct (attribute_returns _ _ _ _ _ _ Ha')
        as (_ & c & e0 & _ & _ & ->).
      rewrite Hn in Hk. done.
    - rewrite Hu in Hu'. injection Hu' as <-.
      rewrite Hi in Hi'. injection Hi' as <-. exact Hm. }
  split; [|split; [|split; [|exact Hret]]].
  - intros u i Hu Hi Ha. destruct (Hwr u i Hu Hi Ha) as [E Hm].
    split; [by apply invitee_fields_fresh|].
    unfold invitee_fields, member_of. rewrite Hm. cbn [default]. unfold id.
    destruct (decide (i = m)) as [->|Hne].
    + by rewrite lookup_insert_eq.
    + by rewrite lookup_insert_eq.
  - intros j Hj.
    destruct (members d) as [ms|] eqn:E.
    { exfalso. apply Hj. unfold invitee_fields, member_of.
      subst r. by rewrite (join_members_kept m cur now env d ms E), E. }
    destruct (join_fresh_members m cur now env d E)
      as [Hn|(u & i & Hu & Hi & Ha & Hm)]; fold r in Hn || fold r in Hm.
    { exfalso. apply Hj.
      by rewrite (invitee_fields_fresh r.1), (invitee_fields_fresh d). }
    rewrite (invitee_fields_fresh d j E) in Hj.
    assert (invitee_fields r.1 j
            = if decide (i = m) then (None, None, None)
              else if decide (j = m) then (Some i, Some (code u), Some now)
                   else (None, None, None)) as Hf.
    { unfold invitee_fields, member_of. rewrite Hm. cbn [default]. unfold id.
      destruct (decide (i = m)) as [->|Hne].
      - destruct (decide (j = m)) as [->|Hjm].
        + by rewrite lookup_insert_eq.
        + by rewrite lookup_insert_ne, lookup_empty.
      - destruct (decide (j = m)) as [->|Hjm].
        + by rewrite lookup_insert_eq.
        + rewrite lookup_insert_ne by done.
          destruct (decide (j = i)) as [->|Hji].
          * by rewrite lookup_insert_eq.
          * by rewrite lookup_insert_ne, lookup_empty. }
    destruct (decide (i = m)) as [->|Hne]; [by rewrite Hf in Hj|].
    destruct (decide (j = m)) as [->|Hjm]; [|by rewrite Hf in Hj].
    split; [done|]. exists u, i. by rewrite Hf.
  - intros d0 evs j Hj. apply run_invitee_fields.
    destruct (members d0) as [ms|] eqn:E; [by eexists|].
    by rewrite invitee_fields_fresh in Hj.
Qed.

Lemma invitee_fields_written_once_witness :
  let env := Platform (Some AttributeError) false None in
  let r := handle_member_join_invite_tracking 77 snapshot_x1 1000 env
             fresh_example in
  r.2 = Logged AttributeError
  ∧ invitee_fields fresh_example 77 = (None, None, None)
  ∧ invitee_fields r.1 77 = (Some 5, Some "x", Some 1000)
  ∧ invitee_fields
      (run r.1 [Leave 77; Join 77 snapshot_x1_y3 2000 quiet; Leave 77;
                Join 77 snapshot_x1_y1 3000 quiet]) 77
    = (Some 5, Some "x", Some 1000).
Proof.
  intros env r.
  destruct (invitee_fields_written_once 77 snapshot_x1 1000 env fresh_example)
    as (Hw & _ & Hkeep & _).
  assert (find_used (default ∅ (invites fresh_example)) snapshot_x1
          = Some (Invite "x" 1 (Some 5) None None)) as Hu by reflexivity.
  assert (inviter (Invite "x" 1 (Some 5) None None) = Some 5) as Hi
    by reflexivity.
  assert ((attribute (Invite "x" 1 (Some 5) None None) 5 77 1000
             fresh_example).2 = inr tt) as Ha by reflexivity.
  destruct (Hw _ _ Hu Hi Ha) as [H0 H1].
  assert (invitee_fields r.1 77 ≠ (None, None, None)) as Hne.
  { intros H. discriminate H. }
  split; [reflexivity|]. split; [exact H0|]. split; [exact H1|].
  exact (eq_trans (Hkeep r.1 _ 77 Hne) H1).
Defined.

(** The record the leave handler stores for the inviter. *)
Lemma leave_with_inviter m d ms r i ri :
  members d = Some ms → ms !! m = Some r → invited_by r = Some i → i ≠ 0 →
  ms !! i = Some ri →
  handle_member_leave_invite_tracking m d
  = Data (invites d)
         (Some (<[i := Member (total_invites ri)
                              (Some (default 0 (left_invites ri) + 1))
                              (recent_invites ri) (invited_by ri)
                              (invite_code ri) (join_timestamp ri)]> ms)).
Proof.
  intros E Hm Hi Hnz Hri. unfold handle_member_leave_invite_tracking.
  rewrite E. cbn [default]. change (id ms) with ms. rewrite Hm.
  cbn [default]. change (id r) with r.
  rewrite Hi, decide_False by done. by rewrite Hri.
Qed.

Lemma leave_without_inviter m d :
  member_of d m ≫= invited_by = None →
  handle_member_leave_invite_tracking m d = d.
Proof.
  unfold member_of, handle_member_leave_invite_tracking.
  destruct (default ∅ (members d) !! m) as [r|]; cbn; [|done].
  by intros ->.
Qed.

(** A recorded inviter that is 0 or has no record: nothing to update. *)
Lemma leave_inviter_unknown m d i :
  member_of d m ≫= invited_by = Some i →
  i = 0 ∨ member_of d i = None →
  handle_member_leave_invite_tracking m d = d.
Proof.
  unfold member_of, handle_member_leave_invite_tracking.
  destruct (default ∅ (members d) !! m) as [r|]; cbn; [|done].
  intros -> [->|Hi]; [done|].
  destruct (decide (i = 0)); [done|].
  destruct (members d) as [ms|]; [|done]. cbn in Hi. unfold id in Hi.
  by rewrite Hi.
Qed.

(** Inviters keep their record through every join and leave. *)
Lemma step_inviters_recorded d ev :
  inviters_recorded d → inviters_recorded (step d ev).
Proof.
  intros Hinv. destruct ev as [m cur now env|m]; cbn [step].
  - destruct (members d) as [ms|] eqn:E.
    + pose proof (join_members_kept m cur now env d ms E) as Hk.
      intros j r i. unfold member_of. rewrite Hk.
      intros Hj Hi. specialize (Hinv j r i). unfold member_of in Hinv.
      rewrite E in Hinv. by apply Hinv.
    + destruct (join_fresh_members m cur now env d E)
        as [Hn|(u & i & _ & _ & _ & Hm)];
        intros j r i'; unfold member_of.
      * rewrite Hn. cbn [default]. unfold id. by rewrite lookup_empty.
      * rewrite Hm. cbn [default]. unfold id.
        destruct (decide (i = m)) as [->|Hne].
        -- destruct (decide (j = m)) as [->|Hj].
           ++ rewrite lookup_insert_eq. by intros [= <-].
           ++ by rewrite lookup_insert_ne, lookup_empty.
        -- destruct (decide (j = m)) as [->|Hj].
           ++ rewrite lookup_insert_eq. intros [= <-] [= <-].
              rewrite lookup_insert_ne, lookup_insert_eq by done. by eexists.
           ++ rewrite lookup_insert_ne by done.
              destruct (decide (j = i)) as [->|Hji].
              ** rewrite lookup_insert_eq. by intros [= <-].
              ** by rewrite lookup_insert_ne, lookup_empty.
  - destruct (member_of d m ≫= invited_by) as [i|] eqn:Hi.
    2:{ by rewrite leave_without_inviter. }
    unfold member_of in Hi.
    destruct (members d) as [ms|] eqn:E.
    2:{ cbn in Hi. by rewrite lookup_empty in Hi. }
    cbn [default] in Hi. unfold id in Hi.
    destruct (ms !! m) as [r|] eqn:Hm; [|done]. cbn in Hi.
    destruct (decide (i = 0)) as [->|Hnz].
    { unfold handle_member_leave_invite_tracking. rewrite E. cbn [default].
      change (id ms) with ms. rewrite Hm. cbn [default]. change (id r) with r.
      rewrite Hi. by rewrite decide_True. }
    destruct (Hinv m r i) as [ri Hri].
    { unfold member_of. by rewrite E. }
    { done. }
    unfold member_of in Hri. rewrite E in Hri. cbn [default] in Hri.
    unfold id in Hri.
    rewrite (leave_with_inviter m d ms r i ri E Hm Hi Hnz Hri).
    intros j rj ij. unfold member_of. cbn [members default]. unfold id.
    destruct (decide (j = i)) as [->|Hji].
    + rewrite lookup_insert_eq. intros [= <-]. cbn [invited_by]. intros Hij.
      destruct (Hinv i ri ij) as [x Hx]; [by unfold member_of; rewrite E|done|].
      unfold member_of in Hx. rewrite E in Hx. cbn [default] in Hx.
      unfold id in Hx.
      destruct (decide (ij = i)) as [->|Hne].
      * rewrite lookup_insert_eq. by eexists.
      * rewrite lookup_insert_ne by done. by eexists.
    + rewrite lookup_insert_ne by done. intros Hj Hij.
      destruct (Hinv j rj ij) as [x Hx]; [by unfold member_of; rewrite E|done|].
      unfold member_of in Hx. rewrite E in Hx. cbn [default] in Hx.
      unfold id in Hx.
      destruct (decide (ij = i)) as [->|Hne].
      * rewrite lookup_insert_eq. by eexists.
      * rewrite lookup_insert_ne by done. by eexists.
Qed.

Lemma run_inviters_recorded d evs :
  inviters_recorded d → inviters_recorded (run d evs).
Proof.
  revert d. induction evs as [|ev evs IH]; intros d H; [done|].
  cbn [run foldl]. apply IH. by apply step_inviters_recorded.
Qed.

Lemma fresh_inviters_recorded d : members d = None → inviters_recorded d.
Proof.
  intros E m r i. unfold member_of. rewrite E. cbn [default]. unfold id.
  by rewrite lookup_empty.
Qed.

(** C9 (counterexample).  User 77 joins through the invite of user 5 and
    leaves; user 77 then comes back while the invite list is as it was, so
    this join is handled without error as un-attributed, and leaves again.
    Every call runs to its end, and user 5 ends with 1 total invite and 2
    left invites: the current invites are -1. *)
Lemma current_invites_negative :
  let d1 := (handle_member_join_invite_tracking 77 snapshot_x1 1000 quiet
               fresh_example).1 in
  let d2 := handle_member_leave_invite_tracking 77 d1 in
  let d3 := (handle_member_join_invite_tracking 77 snapshot_x1 2000 quiet
               d2).1 in
  let d4 := handle_member_leave_invite_tracking 77 d3 in
  (handle_member_join_invite_tracking 77 snapshot_x1 1000 quiet
     fresh_example).2 = Done (Some (5, "x"))
  ∧ (handle_member_join_invite_tracking 77 snapshot_x1 2000 quiet d2).2
    = Done None
  ∧ d4 = run fresh_example
           [Join 77 snapshot_x1 1000 quiet; Leave 77;
            Join 77 snapshot_x1 2000 quiet; Leave 77]
  ∧ (member_of d4 5 ≫= total_invites) = Some 1
  ∧ (member_of d4 5 ≫= left_invites) = Some 2
  ∧ (current_invites_of <$> member_of d4 5) = Some (-1).
Proof. vm_compute. done. Qed.

(** C9 (amended).  A leave changes nothing when the member has no recorded
    inviter, when the recorded inviter is 0, or when the inviter has no
    record (which no state built by the two handlers shows).  Otherwise it
    stores for that one inviter the same record with the left invites
    raised by exactly 1: total invites, recent invites and the inviter's
    own invitee fields are kept, every other member's record and the invite
    cache are unchanged.  The inviter's current invites, total minus left,
    so drop by exactly 1 with each such leave, below 0 if it comes to
    that. *)
Theorem leave_updates_inviter m d :
  let d' := handle_member_leave_invite_tracking m d in
  (member_of d m ≫= invited_by = None → d' = d)
  ∧ (∀ i, member_of d m ≫= invited_by = Some i →
          i = 0 ∨ member_of d i = None → d' = d)
  ∧ (∀ i ri,
       member_of d m ≫= invited_by = Some i → i ≠ 0 →
       member_of d i = Some ri →
       member_of d' i
       = Some (Member (total_invites ri)
                      (Some (default 0 (left_invites ri) + 1))
                      (recent_invites ri) (invited_by ri)
                      (invite_code ri) (join_timestamp ri))
       ∧ (current_invites_of <$> member_of d' i)
         = Some (current_invites_of ri - 1)
       ∧ (∀ j, j ≠ i → member_of d' j = member_of d j)
       ∧ invites d' = invites d
       ∧ is_Some (members d')).
Proof.
  intros d'. subst d'.
  split; [apply leave_without_inviter|].
  split; [apply leave_inviter_unknown|].
  intros i ri Hi Hnz Hri.
  unfold member_of in Hi, Hri.
  destruct (members d) as [ms|] eqn:E.
  2:{ cbn in Hri. by rewrite lookup_empty in Hri. }
  cbn [default] in Hi, Hri. unfold id in Hi, Hri.
  destruct (ms !! m) as [r|] eqn:Hm; [|done]. cbn in Hi.
  rewrite (leave_with_inviter m d ms r i ri E Hm Hi Hnz Hri).
  unfold member_of. cbn [members invites default]. unfold id.
  rewrite lookup_insert_eq. split; [done|].
  split.
  { cbn. unfold current_invites_of. cbn [left_invites total_invites default].
    unfold id. f_equal. lia. }
  split; [|split; [done|by eexists]].
  intros j Hj. rewrite E. cbn [default]. unfold id.
  by rewrite lookup_insert_ne.
Qed.

Lemma leave_updates_inviter_witness :
  let d := (handle_member_join_invite_tracking 77 snapshot_x1 1000 quiet
              fresh_example).1 in
  member_of (handle_member_leave_invite_tracking 77 d) 5
  = Some (Member (Some 1) (Some 1) (Some [(77, 1000)]) None None None)
  ∧ (current_invites_of <$> member_of (handle_member_leave_invite_tracking 77 d) 5)
    = Some 0.
Proof.
  intros d.
  assert (member_of d 77 ≫= invited_by = Some 5) as Hi by reflexivity.
  assert (5 ≠ 0) as Hnz by lia.
  assert (member_of d 5
          = Some (Member (Some 1) (Some 0) (Some [(77, 1000)]) None None None))
    as Hri by reflexivity.
  destruct (proj2 (proj2 (leave_updates_inviter 77 d)) _ _ Hi Hnz Hri)
    as (H1 & H2 & _).
  split; [exact H1|exact H2].
Defined.

(** C10 (counterexample).  The guild is tracked (["members"] exists) and
    invite "z", not yet cached, shows one use: the join is attributed to it,
    and the handler stops with a key error at the update of the cached use
    count, before [inviter_id] is read; nothing is changed. *)
Lemma join_uncached_invite_key_error :
  is_Some (members tracked_example)
  ∧ find_used cache_example snapshot_z1 = Some (Invite "z" 1 (Some 6) None None)
  ∧ handle_member_join_invite_tracking 78 snapshot_z1 2000 quiet tracked_example
    = (tracked_example, Logged KeyError).
Proof. split; [by eexists|]. split; reflexivity. Qed.

(** C10 (amended).  On a guild whose ["members"] exists, a join for which an
    increased invite with an inviter is found never completes: no total is
    incremented, no invitee data is written (the members are exactly as
    before) and the refresh loop is not run.  When the used invite is
    cached, only its cached use count is updated and reading the unassigned
    [inviter_id] raises the unbound-variable error; when it is not cached,
    the update of the cached use count raises a key error and nothing
    changes. *)
Theorem join_with_members_aborts m cur now env d ms u i
    (Hmembers : members d = Some ms)
    (Hused : find_used (default ∅ (invites d)) cur = Some u)
    (Hinviter : inviter u = Some i) :
  let r := handle_member_join_invite_tracking m cur now env d in
  members r.1 = Some ms
  ∧ match invites d ≫= (fun c => c !! code u) with
    | Some e0 =>
        r.2 = Logged UnboundLocalError
        ∧ invites r.1
          = (insert (code u) (Cached (uses u) (c_inviter_id e0)
                                     (c_channel_id e0) (c_created_at e0)))
            <$> invites d
    | None => r = (d, Logged KeyError)
    end.
Proof.
  intros r. split; [by apply join_members_kept|].
  subst r. rewrite handle_member_join_unfold. cbv zeta.
  rewrite Hused, Hinviter, (attribute_with_members _ _ _ _ _ ms Hmembers).
  destruct (invites d) as [c|]; cbn; [|done].
  by destruct (c !! code u).
Qed.

Lemma join_with_members_aborts_witness :
  let r := handle_member_join_invite_tracking 78 snapshot_x1 2000 quiet
             tracked_example in
  members r.1 = members tracked_example
  ∧ r.2 = Logged UnboundLocalError
  ∧ invites r.1
    = Some (<["x" := Cached 1 (Some 5) None None]> cache_example).
Proof.
  intros r.
  assert (members tracked_example
          = Some {[5 := Member (Some 1) (Some 0) (Some [(77, 1000)])
                               None None None]}) as Hm by reflexivity.
  assert (find_used (default ∅ (invites tracked_example)) snapshot_x1
          = Some (Invite "x" 1 (Some 5) None None)) as Hu by reflexivity.
  assert (inviter (Invite "x" 1 (Some 5) None None) = Some 5) as Hi
    by reflexivity.
  destruct (join_with_members_aborts 78 snapshot_x1 2000 quiet tracked_example
              _ _ _ Hm Hu Hi) as [H1 H2].
  split; [exact H1|]. exact H2.
Defined.

End InviteFacts.

(* ===================================================================== *)
(** * Properties of the slot commands *)
(* ===================================================================== *)

Section SlotCommandFacts.
Import Slots SlotCommands.
Implicit Types (ps : gmap Z slot_record) (cfg : bot_config).

(** Both commands start from the record [update_user_slots] leaves. *)
Lemma ensure_record_updated cfg uid roles ps :
  ensure_record uid (update_user_slots cfg uid roles ps)
  = update_user_slots cfg uid roles ps.
Proof.
  unfold ensure_record. by rewrite update_user_slots_record.
Qed.

Lemma updated_lookup cfg uid roles ps :
  let old := default fresh_record (ps !! uid) in
  let total := calculate_user_slots cfg roles + default 0 (manual_slots old) in
  update_user_slots cfg uid roles ps !! uid
  = Some (SlotRecord total (Z.min (used_slots old) total) (manual_slots old)).
Proof.
  intros old total. rewrite update_user_slots_record.
  subst total old. unfold fresh_record. by rewrite calculate_user_slots_sum.
Qed.

(** The state [/addslots] leaves, in terms of the stored record. *)
Lemma addslots_eq cfg uid roles amount ps r0 m :
  0 < amount →
  default fresh_record (ps !! uid) = r0 → default 0 (manual_slots r0) = m →
  let c := calculate_user_slots cfg roles in
  addslots cfg true uid roles amount ps
  = (<[uid := SlotRecord (c + m + amount) (Z.min (used_slots r0) (c + m))
                         (Some (m + amount))]>
       (update_user_slots cfg uid roles ps), Changed amount).
Proof.
  intros Hpos Hr0 Hm c. unfold addslots. cbn [negb].
  rewrite bool_decide_eq_false_2 by lia.
  rewrite ensure_record_updated, updated_lookup, Hr0, Hm.
  cbn [total_slots used_slots manual_slots]. by rewrite Hm.
Qed.

(** The state [/removeslots] leaves, in terms of the stored record. *)
Lemma removeslots_eq cfg uid roles amount ps r0 m :
  0 < amount →
  default fresh_record (ps !! uid) = r0 → default 0 (manual_slots r0) = m →
  let c := calculate_user_slots cfg roles in
  let k := Z.min amount m in
  let u := Z.min (used_slots r0) (c + m) in
  removeslots cfg true uid roles amount ps
  = if decide (k = 0)
    then (update_user_slots cfg uid roles ps, NothingToRemove)
    else (<[uid := SlotRecord (c + m - k) (Z.min u (c + m - k)) (Some (m - k))]>
            (update_user_slots cfg uid roles ps), Changed k).
Proof.
  intros Hpos Hr0 Hm c k u. unfold removeslots. cbn [negb].
  rewrite bool_decide_eq_false_2 by lia.
  rewrite ensure_record_updated, updated_lookup, Hr0, Hm.
  cbn [total_slots used_slots manual_slots]. rewrite Hm. fold c k u.
  destruct (decide (k = 0)) as [Hk|Hk].
  - by rewrite bool_decide_eq_true_2.
  - rewrite bool_decide_eq_false_2 by done.
    destruct (manual_slots r0) as [manual|] eqn:Hman.
    2:{ exfalso. cbn in Hm. subst k. lia. }
    cbn in Hm. unfold id in Hm. subst manual.
    destruct (decide (u > c + m - k)) as [Hgt|Hle];
      cbn [total_slots used_slots manual_slots].
    + do 3 f_equal. lia.
    + do 3 f_equal. lia.
Qed.

(** X1.  [/addslots] by a staff member with a positive amount always
    succeeds: the user's manual slots grow by the amount and the total is
    the role-derived count plus the new manual slots; the used slots are
    those left by the recomputation for the current roles; nobody else's
    record changes. *)
Theorem addslots_adds_manual cfg uid roles amount ps r0 m
    (Hpos : 0 < amount)
    (Hr0 : default fresh_record (ps !! uid) = r0)
    (Hm : default 0 (manual_slots r0) = m) :
  let c := calculate_user_slots cfg roles in
  ∃ ps', addslots cfg true uid roles amount ps = (ps', Changed amount)
    ∧ ps' !! uid
      = Some (SlotRecord (c + (m + amount)) (Z.min (used_slots r0) (c + m))
                         (Some (m + amount)))
    ∧ ∀ u', u' ≠ uid → ps' !! u' = ps !! u'.
Proof.
  intros c. rewrite (addslots_eq cfg uid roles amount ps r0 m Hpos Hr0 Hm).
  eexists. split; [done|]. split.
  - rewrite lookup_insert_eq. do 2 f_equal. lia.
  - intros u' Hne. rewrite lookup_insert_ne by done.
    by apply update_user_slots_other.
Qed.

Lemma addslots_adds_manual_witness :
  ∃ ps', addslots cfg_example true 7 [1; 2] 4 premium_slots_example
         = (ps', Changed 4)
    ∧ ps' !! 7 = Some (SlotRecord 10 6 (Some 5))
    ∧ ∀ u', u' ≠ 7 → ps' !! u' = premium_slots_example !! u'.
Proof.
  assert (0 < 4) as Hpos by lia.
  assert (default fresh_record (premium_slots_example !! 7)
          = SlotRecord 12 9 (Some 1)) as Hr0 by reflexivity.
  assert (default 0 (manual_slots (SlotRecord 12 9 (Some 1))) = 1) as Hm
    by reflexivity.
  exact (addslots_adds_manual cfg_example 7 [1; 2] 4 premium_slots_example
           _ _ Hpos Hr0 Hm).
Defined.

(** X2.  [/removeslots] by a staff member with a positive amount never
    fails, not even on a record without ["manual_slots"]: it removes
    [k = min(amount, manual slots)], answers "nothing to remove" when [k] is
    0, and leaves a record whose total is the role-derived count plus the
    remaining manual slots and whose used slots do not exceed the total;
    manual slots that were not negative stay so; nobody else's record
    changes. *)
Theorem removeslots_removes_manual cfg uid roles amount ps r0 m
    (Hpos : 0 < amount)
    (Hr0 : default fresh_record (ps !! uid) = r0)
    (Hm : default 0 (manual_slots r0) = m) :
  let k := Z.min amount m in
  ∃ ps' r,
    removeslots cfg true uid roles amount ps
    = (ps', if decide (k = 0) then NothingToRemove else Changed k)
    ∧ ps' !! uid = Some r
    ∧ record_consistent cfg roles r
    ∧ default 0 (manual_slots r) = m - k
    ∧ (0 ≤ m → 0 ≤ default 0 (manual_slots r))
    ∧ ∀ u', u' ≠ uid → ps' !! u' = ps !! u'.
Proof.
  intros k.
  rewrite (removeslots_eq cfg uid roles amount ps r0 m Hpos Hr0 Hm).
  cbv zeta. fold k. destruct (decide (k = 0)) as [Hk|Hk].
  - eexists _, _. split; [done|].
    split; [rewrite updated_lookup, Hr0, Hm; done|].
    unfold record_consistent. cbn [total_slots used_slots manual_slots].
    rewrite Hm. split; [split; lia|]. split; [lia|]. split; [lia|].
    intros u' Hne. by apply update_user_slots_other.
  - eexists _, _. split; [done|]. split; [by rewrite lookup_insert_eq|].
    unfold record_consistent.
    cbn [total_slots used_slots manual_slots default]. unfold id.
    split; [split; lia|]. split; [lia|]. split; [lia|].
    intros u' Hne. rewrite lookup_insert_ne by done.
    by apply update_user_slots_other.
Qed.

Lemma removeslots_removes_manual_witness :
  ∃ ps' r,
    removeslots cfg_example true 7 [1; 2] 4 premium_slots_example
    = (ps', Changed 1)
    ∧ ps' !! 7 = Some r
    ∧ record_consistent cfg_example [1; 2] r
    ∧ default 0 (manual_slots r) = 0
    ∧ (0 ≤ 1 → 0 ≤ default 0 (manual_slots r))
    ∧ ∀ u', u' ≠ 7 → ps' !! u' = premium_slots_example !! u'.
Proof.
  assert (0 < 4) as Hpos by lia.
  assert (default fresh_record (premium_slots_example !! 7)
          = SlotRecord 12 9 (Some 1)) as Hr0 by reflexivity.
  assert (default 0 (manual_slots (SlotRecord 12 9 (Some 1))) = 1) as Hm
    by reflexivity.
  exact (removeslots_removes_manual cfg_example 7 [1; 2] 4
           premium_slots_example _ _ Hpos Hr0 Hm).
Defined.

(** X3.  Adding [n] manual slots and removing [n] again, with the roles
    unchanged and the stored manual slots not negative, brings the user's
    record back to what the recomputation for the current roles gives:
    same total, same used slots, same manual slots; nobody else's record
    changes. *)
Theorem addslots_removeslots_round_trip cfg uid roles n ps r0 m
    (Hpos : 0 < n)
    (Hr0 : default fresh_record (ps !! uid) = r0)
    (Hm : default 0 (manual_slots r0) = m)
    (Hmanual : 0 ≤ m) :
  let c := calculate_user_slots cfg roles in
  let ps1 := (addslots cfg true uid roles n ps).1 in
  ∃ ps2, removeslots cfg true uid roles n ps1 = (ps2, Changed n)
    ∧ ps2 !! uid
      = Some (SlotRecord (c + m) (Z.min (used_slots r0) (c + m)) (Some m))
    ∧ ∀ u', u' ≠ uid → ps2 !! u' = ps !! u'.
Proof.
  intros c ps1. subst ps1.
  rewrite (addslots_eq cfg uid roles n ps r0 m Hpos Hr0 Hm). cbn [fst].
  fold c.
  set (r1 := SlotRecord (c + m + n) (Z.min (used_slots r0) (c + m))
                        (Some (m + n))).
  rewrite (removeslots_eq cfg uid roles n _ r1 (m + n) Hpos).
  2:{ by rewrite lookup_insert_eq. }
  2:{ done. }
  cbv zeta. fold c. rewrite Z.min_l by lia.
  rewrite decide_False by lia.
  eexists. split; [done|]. split.
  - rewrite lookup_insert_eq. subst r1. cbn [used_slots].
    f_equal. f_equal; [lia|lia|f_equal; lia].
  - intros u' Hne. rewrite lookup_insert_ne by done.
    rewrite update_user_slots_other by done.
    rewrite lookup_insert_ne by done.
    by apply update_user_slots_other.
Qed.

Lemma addslots_removeslots_round_trip_witness :
  ∃ ps2, removeslots cfg_example true 7 [1; 2] 4
           (addslots cfg_example true 7 [1; 2] 4 premium_slots_example).1
         = (ps2, Changed 4)
    ∧ ps2 !! 7 = Some (SlotRecord 6 6 (Some 1))
    ∧ ∀ u', u' ≠ 7 → ps2 !! u' = premium_slots_example !! u'.
Proof.
  assert (0 < 4) as Hpos by lia.
  assert (default fresh_record (premium_slots_example !! 7)
          = SlotRecord 12 9 (Some 1)) as Hr0 by reflexivity.
  assert (default 0 (manual_slots (SlotRecord 12 9 (Some 1))) = 1) as Hm
    by reflexivity.
  assert (0 ≤ 1) as Hmanual by lia.
  exact (addslots_removeslots_round_trip cfg_example 7 [1; 2] 4
           premium_slots_example _ _ Hpos Hr0 Hm Hmanual).
Defined.

(** X4.  A premium auction is refused when the seller has no record or no
    free slot, and nothing changes; otherwise exactly one slot of the seller
    is consumed, the used slots still do not exceed the total, and no other
    record changes. *)
Theorem create_premium_auction_within_total ps seller :
  match create_premium_auction ps seller with
  | Some ps' =>
      ∃ r, ps !! seller = Some r
        ∧ used_slots r < total_slots r
        ∧ ps' = <[seller := SlotRecord (total_slots r) (used_slots r + 1)
                                       (manual_slots r)]> ps
  | None =>
      match ps !! seller with
      | Some r => total_slots r ≤ used_slots r
      | None => True
      end
  end.
Proof.
  unfold create_premium_auction, premium_slot_available, use_premium_slot.
  destruct (ps !! seller) as [r|] eqn:E; cbn [default]; unfold id.
  - cbn [used_slots total_slots].
    destruct (decide (used_slots r >= total_slots r)) as [Hge|Hlt].
    + rewrite bool_decide_eq_true_2 by done. cbn [negb]. lia.
    + rewrite bool_decide_eq_false_2 by done. cbn [negb].
      exists r. split; [done|]. split; [lia|].
      apply map_eq. intros j. rewrite lookup_alter.
      destruct (decide (seller = j)) as [->|Hne].
      * rewrite lookup_insert_eq, E. done.
      * by rewrite lookup_insert_ne.
  - cbn [used_slots total_slots]. rewrite bool_decide_eq_true_2 by lia.
    done.
Qed.

(** X5.  The slot clean-up keeps exactly the users it finds: every stored
    record stays, with its manual slots, and with its total and its used
    counter each replaced by the greater of 0 and the old value; a user
    without record gets none.  So afterwards no total and no used counter is
    negative, and a record without negative counter is unchanged. *)
Theorem cleanup_slots_nonneg ps uid :
  cleanup_slots ps !! uid
  = (fun r => SlotRecord (Z.max 0 (total_slots r)) (Z.max 0 (used_slots r))
                         (manual_slots r)) <$> ps !! uid
  ∧ (∀ r', cleanup_slots ps !! uid = Some r' →
           0 ≤ total_slots r' ∧ 0 ≤ used_slots r')
  ∧ (∀ r, ps !! uid = Some r → 0 ≤ total_slots r → 0 ≤ used_slots r →
          cleanup_slots ps !! uid = Some r)
  ∧ dom (cleanup_slots ps) = dom ps.
Proof.
  assert (cleanup_slots ps !! uid
          = (fun r => SlotRecord (Z.max 0 (total_slots r))
                                 (Z.max 0 (used_slots r))
                                 (manual_slots r)) <$> ps !! uid) as Heq.
  { unfold cleanup_slots. rewrite lookup_fmap.
    destruct (ps !! uid) as [r|]; [|done]. cbn. f_equal.
    destruct (decide (total_slots r < 0)), (decide (used_slots _ < 0));
      cbn [total_slots used_slots manual_slots] in *;
      destruct r as [t u mn]; cbn [total_slots used_slots manual_slots] in *;
      f_equal; lia. }
  split; [exact Heq|]. split; [|split].
  - intros r' Hr'. rewrite Heq in Hr'.
    destruct (ps !! uid) as [r|]; [|done]. cbn in Hr'. injection Hr' as <-.
    cbn [total_slots used_slots]. lia.
  - intros r Hr Ht Hu. rewrite Heq, Hr. cbn. f_equal.
    destruct r as [t u mn]; cbn [total_slots used_slots manual_slots] in *.
    f_equal; lia.
  - unfold cleanup_slots. apply dom_fmap_L.
Qed.

Lemma cleanup_slots_nonneg_witness :
  cleanup_slots {[7 := SlotRecord (-2) 3 None; 8 := SlotRecord 4 (-1) (Some 1)]}
  !! 7 = Some (SlotRecord 0 3 None)
  ∧ cleanup_slots {[7 := SlotRecord (-2) 3 None; 8 := SlotRecord 4 (-1) (Some 1)]}
    !! 8 = Some (SlotRecord 4 0 (Some 1))
  ∧ cleanup_slots {[7 := SlotRecord (-2) 3 None; 8 := SlotRecord 4 (-1) (Some 1)]}
    !! 9 = None.
Proof.
  split; [|split].
  - exact (proj1 (cleanup_slots_nonneg _ 7)).
  - exact (proj1 (cleanup_slots_nonneg _ 8)).
  - exact (proj1 (cleanup_slots_nonneg _ 9)).
Defined.

End SlotCommandFacts.

(* ===================================================================== *)
(** * Further properties of joining and ending *)
(* ===================================================================== *)

Section JoinEndFacts.
Import Giveaway GiveawayOps.
Implicit Types (data : gmap string giveaway) (gid : string) (g : giveaway).

Lemma any_role_in_spec (l roles : list Z) :
  any_role_in l roles = true ↔ ∃ r, r ∈ l ∧ r ∈ roles.
Proof.
  unfold any_role_in. rewrite existsb_exists. split.
  - intros (r & Hr%list_elem_of_In & Hb%bool_decide_eq_true). eauto.
  - intros (r & Hr & Hb). exists r. split; [by apply list_elem_of_In|].
    by apply bool_decide_eq_true.
Qed.

Lemma dict_set_id {V} (k : Z) (v : V) (d : list (Z * V)) :
  dict_get k d = Some v → dict_set k v d = d.
Proof.
  induction d as [|[k' v'] d IH]; simpl; [done|].
  destruct (decide (k = k')) as [->|Hne].
  - by intros [= ->].
  - intros H. by rewrite IH.
Qed.

Lemma dict_set_positive (k v : Z) (d : list (Z * Z)) :
  0 < v → entries_positive d → entries_positive (dict_set k v d).
Proof.
  intros Hv. unfold entries_positive.
  induction 1 as [|[k' v'] d Hx Hd IH]; simpl.
  - by repeat constructor.
  - destruct (decide (k = k')).
    + apply Forall_cons. split; [exact Hv|exact Hd].
    + apply Forall_cons. split; [exact Hx|exact IH].
Qed.

(** The participant step applied twice is the participant step. *)
Lemma add_participant_idem g user_id roles :
  add_participant (set_participants (add_participant g user_id roles) g)
    user_id roles
  = add_participant g user_id roles.
Proof.
  pose proof (add_participant_get g user_id roles) as Hget.
  unfold add_participant at 1. cbn [participants extra_entry_roles set_participants].
  rewrite Hget.
  destruct (first_extra_entry (extra_entry_roles g) roles) as [rc|];
    [|done].
  by apply dict_set_id.
Qed.

(** X6.  On an active giveaway a join is accepted exactly when the user
    passes both checks: there are no required roles or the user holds one,
    and the required level is not positive, or is reached, or the user
    holds a bypass role.  A missing required role is reported before a low
    level, and a rejected join changes nothing. *)
Theorem join_accepted_iff data gid g user_id roles level
    (Hg : data !! gid = Some g) (Hactive : gstatus g = Active) :
  let has_required :=
    required_roles g = [] ∨ ∃ r, r ∈ required_roles g ∧ r ∈ roles in
  let level_ok :=
    required_level g ≤ 0 ∨ required_level g ≤ level
    ∨ ∃ r, r ∈ bypass_roles g ∧ r ∈ roles in
  let res := join_giveaway data gid user_id roles level in
  ((∃ w, res.2 = Joined w) ↔ has_required ∧ level_ok)
  ∧ (res.2 = MissingRequiredRole ↔ ¬ has_required)
  ∧ (res.2 = LevelTooLow ↔ has_required ∧ ¬ level_ok)
  ∧ (¬ (has_required ∧ level_ok) → res.1 = data).
Proof.
  intros has_required level_ok res.
  assert (negb (bool_decide (required_roles g = []))
          && negb (any_role_in (required_roles g) roles) = true
          ↔ ¬ has_required) as Hreq.
  { rewrite andb_true_iff, !negb_true_iff, bool_decide_eq_false.
    rewrite <- not_true_iff_false, any_role_in_spec.
    subst has_required. tauto. }
  assert (bool_decide (required_level g > 0)
          && bool_decide (level < required_level g)
          && (if bool_decide (bypass_roles g = []) then true
              else negb (any_role_in (bypass_roles g) roles)) = true
          ↔ ¬ level_ok) as Hlvl.
  { rewrite !andb_true_iff, !bool_decide_eq_true.
    assert ((if bool_decide (bypass_roles g = []) then true
             else negb (any_role_in (bypass_roles g) roles)) = true
            ↔ ¬ ∃ r, r ∈ bypass_roles g ∧ r ∈ roles) as ->.
    { destruct (bool_decide (bypass_roles g = [])) eqn:Hb.
      - apply bool_decide_eq_true in Hb. rewrite Hb. split; [|done].
        intros _ (r & Hr & _). by apply elem_of_nil in Hr.
      - rewrite negb_true_iff, <- not_true_iff_false, any_role_in_spec. tauto. }
    subst level_ok. split.
    - intros [[H1 H2] H3] [H|[H|H]]; [lia|lia|tauto].
    - intros H. split; [split|]; [| |tauto].
      + destruct (decide (required_level g > 0)); [done|]. exfalso.
        apply H. left. lia.
      + destruct (decide (level < required_level g)); [done|]. exfalso.
        apply H. right. left. lia. }
  assert (negb (bool_decide (required_roles g = []))
          && negb (any_role_in (required_roles g) roles) = false
          → has_required) as Hreq'.
  { rewrite andb_false_iff, !negb_false_iff, bool_decide_eq_true,
      any_role_in_spec. subst has_required. tauto. }
  assert (bool_decide (required_level g > 0)
          && bool_decide (level < required_level g)
          && (if bool_decide (bypass_roles g = []) then true
              else negb (any_role_in (bypass_roles g) roles)) = false
          → level_ok) as Hlvl'.
  { rewrite !andb_false_iff, !bool_decide_eq_false. subst level_ok.
    intros [[H|H]|H]; [left; lia|right; left; lia|].
    destruct (bool_decide (bypass_roles g = [])); [done|].
    apply negb_false_iff, any_role_in_spec in H. tauto. }
  subst res. unfold join_giveaway. rewrite Hg.
  rewrite bool_decide_eq_true_2 by done. cbn [negb].
  destruct (negb _ && negb _).
  { assert (¬ has_required) as Hn by (by apply Hreq).
    cbn [fst snd]. split; [|split; [|split]].
    - split; [by intros [w ?]|tauto].
    - done.
    - split; [done|tauto].
    - done. }
  assert (has_required) as Hh by (by apply Hreq').
  destruct (_ && _ && _).
  { assert (¬ level_ok) as Hn by (by apply Hlvl).
    cbn [fst snd]. split; [|split; [|split]].
    - split; [by intros [w ?]|tauto].
    - split; [done|tauto].
    - done.
    - done. }
  assert (level_ok) as Hl by (by apply Hlvl').
  cbn [fst snd]. split; [|split; [|split]].
  - split; [done|eauto].
  - split; [done|tauto].
  - split; [done|tauto].
  - tauto.
Qed.

Lemma join_accepted_iff_witness :
  let res := join_giveaway data_example "gw" 7 [] 0 in
  ((∃ w, res.2 = Joined w)
   ↔ (required_roles giveaway_example = []
      ∨ ∃ r, r ∈ required_roles giveaway_example ∧ r ∈ [])
     ∧ (required_level giveaway_example ≤ 0
        ∨ required_level giveaway_example ≤ 0
        ∨ ∃ r, r ∈ bypass_roles giveaway_example ∧ r ∈ [])).
Proof.
  intros res.
  assert (data_example !! "gw" = Some giveaway_example) as Hg by reflexivity.
  assert (gstatus giveaway_example = Active) as Ha by reflexivity.
  exact (proj1 (join_accepted_iff data_example "gw" giveaway_example 7 [] 0
                  Hg Ha)).
Defined.

(** The handler on an active giveaway, check by check. *)
Lemma join_giveaway_active_eq data gid g user_id roles level :
  data !! gid = Some g → gstatus g = Active →
  join_giveaway data gid user_id roles level
  = if negb (bool_decide (required_roles g = []))
       && negb (any_role_in (required_roles g) roles)
    then (data, MissingRequiredRole)
    else if bool_decide (required_level g > 0)
            && bool_decide (level < required_level g)
            && (if bool_decide (bypass_roles g = []) then true
                else negb (any_role_in (bypass_roles g) roles))
    then (data, LevelTooLow)
    else (<[gid := set_participants (add_participant g user_id roles) g]> data,
          Joined (default 0 (dict_get user_id (add_participant g user_id roles)))).
Proof.
  intros Hg Ha. unfold join_giveaway. rewrite Hg.
  by rewrite bool_decide_eq_true_2.
Qed.

(** X7.  Joining is idempotent: a second join by the same user with the
    same roles and level gets the same answer and leaves the state exactly
    as the first join left it. *)
Theorem join_giveaway_twice data gid user_id roles level :
  let res := join_giveaway data gid user_id roles level in
  join_giveaway res.1 gid user_id roles level = res.
Proof.
  intros res. subst res.
  destruct (data !! gid) as [g|] eqn:Hg.
  2:{ rewrite (join_giveaway_guard data) by (intros g; by rewrite Hg).
      cbn [fst]. apply join_giveaway_guard. intros g. by rewrite Hg. }
  destruct (decide (gstatus g = Active)) as [Ha|Hn].
  2:{ rewrite (join_giveaway_guard data) by (intros g' Hg'; congruence).
      cbn [fst]. apply join_giveaway_guard. intros g' Hg'. congruence. }
  rewrite (join_giveaway_active_eq data gid g) by done.
  destruct (negb _ && negb _) eqn:E1.
  { cbn [fst]. rewrite (join_giveaway_active_eq data gid g) by done.
    by rewrite E1. }
  destruct (_ && _ && _) eqn:E2.
  { cbn [fst]. rewrite (join_giveaway_active_eq data gid g) by done.
    by rewrite E1, E2. }
  cbn [fst].
  rewrite (join_giveaway_active_eq _ gid
             (set_participants (add_participant g user_id roles) g))
    by (by rewrite ?lookup_insert_eq).
  cbn [gstatus required_roles required_level bypass_roles set_participants].
  rewrite E1, E2, add_participant_idem, insert_insert_eq. done.
Qed.

(** X8.  Joining keeps a giveaway well formed: the participants stay
    pairwise distinct with positive entry counts, and the configuration is
    untouched. *)
Theorem join_keeps_well_formed data gid g user_id roles level g'
    (Hg : data !! gid = Some g) (Hwf : well_formed g)
    (Hg' : (join_giveaway data gid user_id roles level).1 !! gid = Some g') :
  well_formed g'
  ∧ gstatus g' = gstatus g ∧ end_time g' = end_time g
  ∧ winners g' = winners g ∧ extra_entry_roles g' = extra_entry_roles g.
Proof.
  destruct Hwf as (Hd & Hp & Hr & Hw).
  destruct (decide (gstatus g = Active)) as [Ha|Hn].
  2:{ rewrite join_giveaway_guard in Hg' by (intros g0 Hg0; congruence).
      cbn [fst] in Hg'. rewrite Hg in Hg'. injection Hg' as <-.
      by repeat split. }
  destruct (join_giveaway_active data gid g user_id roles level Hg Ha)
    as [H|[H|H]]; rewrite H in Hg'; cbn [fst] in Hg'.
  1,2: rewrite Hg in Hg'; injection Hg' as <-; by repeat split.
  rewrite lookup_insert_eq in Hg'. injection Hg' as <-.
  cbn [gstatus end_time winners extra_entry_roles set_participants].
  split; [|done]. unfold well_formed.
  cbn [participants extra_entry_roles winners set_participants].
  split; [by apply add_participant_wf|]. split; [|done].
  unfold add_participant.
  destruct (first_extra_entry (extra_entry_roles g) roles) as [rc|] eqn:Hf.
  - apply find_first_split in Hf as (l1 & l2 & E & _ & _).
    assert (0 < entries rc) as Hrc.
    { rewrite E in Hr. apply Forall_app in Hr as [_ Hr].
      by apply Forall_cons in Hr as [? _]. }
    apply dict_set_positive; [done|].
    destruct (dict_get user_id (participants g)); [done|].
    apply dict_set_positive; [lia|done].
  - destruct (dict_get user_id (participants g)); [done|].
    apply dict_set_positive; [lia|done].
Qed.

Lemma join_keeps_well_formed_witness :
  ∃ g', (join_giveaway data_example "gw" 7 [] 0).1 !! "gw" = Some g'
        ∧ well_formed g'.
Proof.
  assert (data_example !! "gw" = Some giveaway_example) as Hg by reflexivity.
  assert (well_formed giveaway_example) as Hwf.
  { unfold well_formed, dict_wf, entries_positive. cbn.
    split; [|split; [|split]].
    - apply NoDup_cons. split.
      + intros H. apply list_elem_of_singleton in H. lia.
      + apply NoDup_singleton.
    - repeat constructor; cbn; lia.
    - constructor.
    - lia. }
  eexists. split; [reflexivity|].
  exact (proj1 (join_keeps_well_formed data_example "gw" giveaway_example
                  7 [] 0 _ Hg Hwf eq_refl)).
Defined.




End JoinEndFacts.

(* ===================================================================== *)
(** * Properties of the sweep *)
(* ===================================================================== *)

Section SweepFacts.
Import Giveaway GiveawayOps.
Implicit Types (data : gmap string giveaway) (gid : string) (g : giveaway)
  (env : sweep_env) (items : list string).

(** Ending one giveaway leaves the others alone. *)
Lemma end_giveaway_other data gid channel_found_ draws_ gid' :
  gid' ≠ gid →
  (end_giveaway data gid channel_found_ draws_).1 !! gid' = data !! gid'.
Proof.
  intros Hne. unfold end_giveaway.
  destruct (data !! gid) as [g|]; [|done].
  destruct (negb _); [done|].
  destruct (negb channel_found_); cbn [fst]; [by rewrite lookup_insert_ne|].
  destruct (bool_decide _); cbn [fst]; [by rewrite lookup_insert_ne|].
  destruct (random_sample _ _ _); cbn [fst]; by rewrite !lookup_insert_ne.
Qed.

(** Ending an active giveaway changes its status and winners list only. *)
Lemma end_giveaway_self data gid g channel_found_ draws_ :
  data !! gid = Some g → gstatus g = Active →
  ∃ g', (end_giveaway data gid channel_found_ draws_).1 !! gid = Some g'
        ∧ gstatus g' = Ended ∧ same_entries g g'
        ∧ required_roles g' = required_roles g.
Proof.
  intros E Ha. unfold end_giveaway. rewrite E.
  rewrite bool_decide_eq_true_2 by done. cbn [negb].
  destruct channel_found_; cbn [negb fst].
  2:{ eexists. rewrite lookup_insert_eq. done. }
  destruct (bool_decide (participants (set_status Ended g) = [])); cbn [fst].
  { eexists. rewrite lookup_insert_eq. done. }
  destruct (random_sample _ _ _) as [e|ws]; cbn [fst].
  - eexists. rewrite lookup_insert_eq. done.
  - eexists. rewrite lookup_insert_eq. done.
Qed.


(** What the loop does to each stored giveaway, whatever the snapshot of
    identifiers and however the loop finishes. *)
Lemma sweep_loop_lookup now env items data gid :
  match data !! gid with
  | None => (sweep_loop now env items data).1 !! gid = None
  | Some g =>
      ∃ g', (sweep_loop now env items data).1 !! gid = Some g'
            ∧ same_entries g g'
            ∧ (g' = g ∨ (due now g ∧ gstatus g' = Ended))
  end.
Proof.
  revert data. induction items as [|x items IH]; intros data.
  { cbn [sweep_loop fst]. destruct (data !! gid) as [g|]; [|done].
    exists g. by repeat split; [..|left]. }
  cbn [sweep_loop].
  assert (match data !! gid with
          | None => (sweep_loop now env items data).1 !! gid = None
          | Some g =>
              ∃ g', (sweep_loop now env items data).1 !! gid = Some g'
                    ∧ same_entries g g'
                    ∧ (g' = g ∨ (due now g ∧ gstatus g' = Ended))
          end) as Hskip by apply IH.
  destruct (data !! x) as [gx|] eqn:Hx; [|exact Hskip].
  destruct (bool_decide (gstatus gx = Active)) eqn:Ea; cbn [andb];
    [|exact Hskip].
  destruct (bool_decide (now >= end_time gx)) eqn:Et; cbn [andb];
    [|exact Hskip].
  destruct (guild_found env); [|exact Hskip].
  apply bool_decide_eq_true in Ea, Et. clear Hskip.
  assert (match data !! gid with
          | None =>
              (end_giveaway data x (channel_found env x) (draws env x)).1 !! gid
              = None
          | Some g =>
              ∃ g1, (end_giveaway data x (channel_found env x) (draws env x)).1
                    !! gid = Some g1
                    ∧ same_entries g g1
                    ∧ (g1 = g ∨ (due now g ∧ gstatus g1 = Ended))
          end) as Hend.
  { destruct (decide (gid = x)) as [->|Hne].
    - rewrite Hx.
      destruct (end_giveaway_self data x gx (channel_found env x) (draws env x)
                  Hx Ea) as (g1 & H1 & H2 & H3 & _).
      exists g1. split; [done|]. split; [done|]. right.
      split; [|done]. split; [done|lia].
    - rewrite end_giveaway_other by done.
      destruct (data !! gid) as [g|]; [|done].
      exists g. split; [done|]. split; [done|]. by left. }
  specialize (IH (end_giveaway data x (channel_found env x) (draws env x)).1).
  destruct (end_giveaway data x (channel_found env x) (draws env x))
    as [data' res]. cbn [fst] in *.
  assert (match data !! gid with
          | None => (sweep_loop now env items data').1 !! gid = None
          | Some g =>
              ∃ g', (sweep_loop now env items data').1 !! gid = Some g'
                    ∧ same_entries g g'
                    ∧ (g' = g ∨ (due now g ∧ gstatus g' = Ended))
          end) as Hrest.
  { destruct (data !! gid) as [g|].
    - destruct Hend as (g1 & H1 & H2 & H3). rewrite H1 in IH.
      destruct IH as (g' & H4 & H5 & H6).
      exists g'. split; [done|]. split.
      + destruct H2 as (?&?&?&?), H5 as (?&?&?&?). repeat split; congruence.
      + destruct H6 as [->|[Hd He']]; [exact H3|].
        destruct H3 as [->|[_ He]]; [by right|].
        destruct Hd as [Ha _]. congruence.
    - by rewrite Hend in IH. }
  destruct res; try exact Hrest.
  cbn [fst]. exact Hend.
Qed.







Lemma data_example_well_formed gid g :
  data_example !! gid = Some g → well_formed g.
Proof.
  unfold data_example. intros [_ <-]%lookup_singleton_Some.
  unfold well_formed, dict_wf, entries_positive. cbn.
  split; [|split; [|split]].
  - apply NoDup_cons. split.
    + intros H. apply list_elem_of_singleton in H. lia.
    + apply NoDup_singleton.
  - repeat constructor; cbn; lia.
  - constructor.
  - lia.
Qed.



(** X11.  Whatever happens during a sweep (guild missing, an ending that
    raises), a giveaway that is not active or whose end time has not come is
    left exactly as it was, no participant list changes and no giveaway
    appears or disappears. *)
Theorem check_giveaways_keeps_running now env data gid :
  let res := check_giveaways now env data in
  match data !! gid with
  | None => res.1 !! gid = None
  | Some g =>
      ∃ g', res.1 !! gid = Some g'
        ∧ participants g' = participants g
        ∧ (¬ due now g → g' = g)
  end.
Proof.
  intros res. subst res. unfold check_giveaways.
  pose proof (sweep_loop_lookup now env (map_to_list data).*1 data gid) as Hl.
  destruct (data !! gid) as [g|]; [|done].
  destruct Hl as (g' & H1 & (H2 & _) & H3).
  exists g'. split; [done|]. split; [done|].
  intros Hn. destruct H3 as [->|[? _]]; done.
Qed.





End SweepFacts.

(* ===================================================================== *)
(** * Properties of the set-up dialogs and of prize claims *)
(* ===================================================================== *)

Section SetupClaimFacts.
Import Giveaway GiveawayOps.
Implicit Types (data : gmap string giveaway) (gid : string) (g : giveaway)
  (claimed : gmap string (list Z)).

Lemma find_app_first {A} (p : A → bool) (l1 l2 : list A) :
  find p (l1 ++ l2)
  = match find p l1 with Some x => Some x | None => find p l2 end.
Proof.
  induction l1 as [|x l1 IH]; simpl; [done|]. by destruct (p x).
Qed.

(** X14.  Configuring extra entries for a role with a positive count is
    accepted and replaces any earlier rule for that role by one rule placed
    last: the other rules keep their order, role identifiers stay pairwise
    distinct and entry counts positive.  Hence a user holding a role
    configured earlier still gets that earlier rule, and a user holding
    only the new role gets the new count. *)
Theorem add_extra_entry_replaces role_ entries_ rules (Hpos : 0 < entries_) :
  let kept := filter (fun r => role_id r ≠ role_) rules in
  add_extra_entry true role_ entries_ rules
  = Some (kept ++ [RoleConfig role_ entries_])
  ∧ (NoDup (role_id <$> rules) →
     NoDup (role_id <$> kept ++ [RoleConfig role_ entries_]))
  ∧ (Forall (fun rc => 0 < entries rc) rules →
     Forall (fun rc => 0 < entries rc) (kept ++ [RoleConfig role_ entries_]))
  ∧ (∀ roles rc, first_extra_entry kept roles = Some rc →
       first_extra_entry (kept ++ [RoleConfig role_ entries_]) roles = Some rc)
  ∧ (∀ roles, first_extra_entry kept roles = None → role_ ∈ roles →
       first_extra_entry (kept ++ [RoleConfig role_ entries_]) roles
       = Some (RoleConfig role_ entries_)).
Proof.
  intros kept. split; [|split; [|split; [|split]]].
  - unfold add_extra_entry. by rewrite bool_decide_eq_false_2 by lia.
  - intros Hnd. rewrite fmap_app. apply NoDup_app. split; [|split].
    + subst kept. clear -Hnd. induction rules as [|rc rules IH]; [done|].
      rewrite fmap_cons in Hnd. apply NoDup_cons in Hnd as [Hrc Hnd].
      rewrite filter_cons. destruct (decide (role_id rc ≠ role_)); [|by apply IH].
      rewrite fmap_cons. apply NoDup_cons. split; [|by apply IH].
      intros (rc' & E & Hin)%list_elem_of_fmap.
      apply list_elem_of_filter in Hin as [_ Hin].
      apply Hrc. rewrite E. by apply list_elem_of_fmap_2.
    + intros r (rc & -> & Hin)%list_elem_of_fmap Hr.
      apply list_elem_of_filter in Hin as [Hne _].
      cbn in Hr. apply list_elem_of_singleton in Hr. done.
    + cbn. apply NoDup_singleton.
  - intros Hall. apply Forall_app. split.
    + subst kept. rewrite Forall_forall in Hall. apply Forall_forall.
      intros rc [_ Hin]%list_elem_of_filter. by apply Hall.
    + by repeat constructor.
  - intros roles rc Hf. unfold first_extra_entry in *.
    by rewrite find_app_first, Hf.
  - intros roles Hf Hin. unfold first_extra_entry in *.
    rewrite find_app_first, Hf. cbn [find role_id].
    by rewrite bool_decide_eq_true_2.
Qed.

Lemma add_extra_entry_replaces_witness :
  add_extra_entry true 1 7 [RoleConfig 1 2; RoleConfig 2 5]
  = Some ([RoleConfig 2 5] ++ [RoleConfig 1 7]).
Proof.
  assert (0 < 7) as Hpos by lia.
  exact (proj1 (add_extra_entry_replaces 1 7 [RoleConfig 1 2; RoleConfig 2 5]
                  Hpos)).
Defined.



(** One iteration of the claim loop, seen from each giveaway. *)
Lemma claim_step_same user_id acc gid g :
  (claim_step user_id acc (gid, g)).1 !! gid
  = claim_in user_id g (acc.1 !! gid).
Proof.
  unfold claim_step, claim_in. destruct (won user_id g); [|done].
  destruct (bool_decide _); cbn [fst]; by rewrite lookup_insert_eq.
Qed.

Lemma claim_step_other user_id acc gid g gid' :
  gid' ≠ gid → (claim_step user_id acc (gid, g)).1 !! gid' = acc.1 !! gid'.
Proof.
  intros Hne. unfold claim_step. destruct (won user_id g); [|done].
  destruct (bool_decide _); cbn [fst]; by rewrite lookup_insert_ne.
Qed.

Lemma claim_fold_lookup user_id (l : list (string * giveaway)) acc gid :
  NoDup l.*1 →
  (foldl (claim_step user_id) acc l).1 !! gid
  = match (list_to_map l : gmap string giveaway) !! gid with
    | Some g => claim_in user_id g (acc.1 !! gid)
    | None => acc.1 !! gid
    end.
Proof.
  revert acc. induction l as [|[x g] l IH]; intros acc Hnd; [done|].
  rewrite fmap_cons in Hnd. apply NoDup_cons in Hnd as [Hx Hnd].
  cbn [foldl list_to_map foldr]. rewrite IH by done.
  destruct (decide (gid = x)) as [->|Hne].
  - change (uncurry insert (x, g) (list_to_map l))
      with (<[x := g]> (list_to_map l : gmap string giveaway)).
    rewrite lookup_insert_eq.
    rewrite (not_elem_of_list_to_map_1 (M := gmap string)) by done.
    apply claim_step_same.
  - change (uncurry insert (x, g) (list_to_map l))
      with (<[x := g]> (list_to_map l : gmap string giveaway)).
    rewrite lookup_insert_ne by done.
    by rewrite claim_step_other.
Qed.

Lemma giveaway_claim_lookup user_id data claimed gid :
  (giveaway_claim user_id data claimed).1 !! gid
  = match data !! gid with
    | Some g => claim_in user_id g (claimed !! gid)
    | None => claimed !! gid
    end.
Proof.
  unfold giveaway_claim.
  rewrite claim_fold_lookup by apply NoDup_fst_map_to_list.
  by rewrite list_to_map_to_list.
Qed.

Lemma claim_in_won user_id g c :
  won user_id g = true →
  ∃ c', claim_in user_id g c = Some c' ∧ user_id ∈ c'
        ∧ ∀ w, w ≠ user_id → w ∈ c' ↔ w ∈ default [] c.
Proof.
  intros Hw. unfold claim_in. rewrite Hw.
  set (c0 := match c with Some (x :: l) => x :: l | _ => [] end).
  assert (∀ w, w ∈ c0 ↔ w ∈ default [] c) as Hc0.
  { intros w. subst c0. by destruct c as [[|x l]|]. }
  destruct (bool_decide (user_id ∈ c0)) eqn:E.
  - apply bool_decide_eq_true in E. exists c0. split; [done|].
    split; [done|]. intros w _. apply Hc0.
  - exists (c0 ++ [user_id]). split; [done|]. split.
    + apply elem_of_app. right. by apply list_elem_of_singleton.
    + intros w Hne. rewrite elem_of_app, list_elem_of_singleton, Hc0. tauto.
Qed.

(** X16.  After [/giveaway_claim] for a user, the user is no unclaimed
    winner of any stored giveaway; the claims of other users are exactly as
    before, and the claimed list of a giveaway the user has not won (not
    ended, or the user is not among its winners) is untouched. *)
Theorem giveaway_claim_marks user_id data claimed gid g
    (Hg : data !! gid = Some g) :
  let res := giveaway_claim user_id data claimed in
  (user_id ∉ unclaimed_winners g (res.1 !! gid))
  ∧ (∀ w, w ≠ user_id →
       (w ∈ default [] (res.1 !! gid) ↔ w ∈ default [] (claimed !! gid)))
  ∧ (won user_id g = true → user_id ∈ default [] (res.1 !! gid))
  ∧ (won user_id g = false → res.1 !! gid = claimed !! gid).
Proof.
  intros res. subst res. rewrite giveaway_claim_lookup, Hg.
  destruct (won user_id g) eqn:Hw.
  - destruct (claim_in_won user_id g (claimed !! gid) Hw)
      as (c' & -> & Hin & Hoth).
    cbn [default]. unfold id.
    split; [|split; [|split]]; [|done|done|done].
    unfold unclaimed_winners. destruct (bool_decide _); [|apply not_elem_of_nil].
    intros [Hn _]%list_elem_of_filter. by apply Hn.
  - unfold claim_in. rewrite Hw.
    split; [|split; [|split]]; [|done|done|done].
    unfold unclaimed_winners, won in *.
    destruct (bool_decide (gstatus g = Ended)); [|apply not_elem_of_nil].
    cbn [andb] in Hw.
    intros [_ Hin]%list_elem_of_filter.
    destruct (winners_list g) as [wl|]; [|by apply elem_of_nil in Hin].
    cbn [default] in Hin. unfold id in Hin.
    apply andb_false_iff in Hw as [Hw|Hw].
    + apply negb_false_iff, bool_decide_eq_true in Hw. subst wl.
      by apply elem_of_nil in Hin.
    + by apply bool_decide_eq_false in Hw.
Qed.

Lemma giveaway_claim_marks_witness :
  let data1 := (end_giveaway data_example "gw" true [1%nat; 0%nat]).1 in
  let res := giveaway_claim 10 data1 ∅ in
  10 ∉ unclaimed_winners
         (set_winners_list [10] (set_status Ended giveaway_example))
         (res.1 !! "gw").
Proof.
  intros data1 res.
  assert (data1 !! "gw"
          = Some (set_winners_list [10] (set_status Ended giveaway_example)))
    as Hg by reflexivity.
  exact (proj1 (giveaway_claim_marks 10 data1 ∅ "gw" _ Hg)).
Defined.

Lemma claim_fold_noop user_id (l : list (string * giveaway)) acc :
  (∀ x g, (x, g) ∈ l → won user_id g = true →
          ∃ c, acc.1 !! x = Some c ∧ user_id ∈ c) →
  foldl (claim_step user_id) acc l = acc.
Proof.
  induction l as [|[x g] l IH]; intros H; [done|].
  cbn [foldl].
  assert (claim_step user_id acc (x, g) = acc) as ->.
  { unfold claim_step. destruct (won user_id g) eqn:Hw; [|done].
    destruct (H x g) as (c & Hc & Hin); [left|done|].
    rewrite Hc. destruct c as [|y c]; [by apply elem_of_nil in Hin|].
    rewrite bool_decide_eq_true_2 by done.
    rewrite insert_id by done. by destruct acc. }
  apply IH. intros x' g' Hin'. apply H. by right.
Qed.

(** X17.  Claiming is idempotent: a second [/giveaway_claim] for the same
    user finds nothing to claim and leaves every claimed list as the first
    one left it. *)
Theorem giveaway_claim_twice user_id data claimed :
  let claimed1 := (giveaway_claim user_id data claimed).1 in
  giveaway_claim user_id data claimed1 = (claimed1, []).
Proof.
  intros claimed1. unfold giveaway_claim at 1.
  apply claim_fold_noop. intros x g Hin Hw. cbn [fst].
  apply elem_of_map_to_list in Hin.
  subst claimed1. rewrite giveaway_claim_lookup, Hin.
  destruct (claim_in_won user_id g (claimed !! x) Hw) as (c' & -> & Hc & _).
  eauto.
Qed.

End SetupClaimFacts.

(* ===================================================================== *)
(** * Properties of the invite cache and of milestone roles *)
(* ===================================================================== *)

Section InviteOpsFacts.
Import Invites InviteOps.
Implicit Types (d : invite_data) (cur : list invite)
  (c : gmap string cached_invite).

Lemma cache_fold_absent cur c k :
  k ∉ code <$> cur →
  foldl (fun c inv => <[code inv := cache_entry inv]> c) c cur !! k = c !! k.
Proof.
  revert c. induction cur as [|x cur IH]; intros c Hk; [done|].
  rewrite fmap_cons, not_elem_of_cons in Hk. destruct Hk as [Hx Hk].
  cbn [foldl]. rewrite IH by done. by rewrite lookup_insert_ne.
Qed.

Lemma cache_fold_present cur c inv :
  NoDup (code <$> cur) → inv ∈ cur →
  foldl (fun c inv => <[code inv := cache_entry inv]> c) c cur !! code inv
  = Some (cache_entry inv).
Proof.
  revert c. induction cur as [|x cur IH]; intros c Hnd Hin;
    [by apply elem_of_nil in Hin|].
  rewrite fmap_cons in Hnd. apply NoDup_cons in Hnd as [Hx Hnd].
  cbn [foldl]. apply elem_of_cons in Hin as [->|Hin].
  - rewrite cache_fold_absent by done. apply lookup_insert_eq.
  - by apply IH.
Qed.

Lemma cache_fold_synced cur c :
  (∀ inv, inv ∈ cur → c !! code inv = Some (cache_entry inv)) →
  foldl (fun c inv => <[code inv := cache_entry inv]> c) c cur = c.
Proof.
  induction cur as [|x cur IH]; intros H; [done|].
  cbn [foldl]. rewrite insert_id by (apply H; left).
  apply IH. intros inv Hin. apply H. by right.
Qed.

Lemma find_none_intro {A} (p : A → bool) (l : list A) :
  (∀ x, x ∈ l → p x = false) → find p l = None.
Proof.
  induction l as [|y l IH]; intros H; [done|].
  simpl. rewrite (H y) by left. apply IH. intros x Hx. apply H. by right.
Qed.

(** With the cache in step with the snapshot no invite counts as used and
    the handler changes nothing. *)
Lemma join_synced m cur now env d :
  synced cur d →
  handle_member_join_invite_tracking m cur now env d = (d, Done None).
Proof.
  intros (c & Hc & Hall). rewrite handle_member_join_unfold. cbv zeta.
  rewrite Hc. cbn [default]. change (id c) with c.
  assert (find_used c cur = None) as ->.
  { apply find_none_intro. intros inv Hin. apply bool_decide_eq_false.
    unfold cached_uses. rewrite (Hall inv Hin). cbn. unfold id. lia. }
  destruct d as [io mo]. cbn [invites] in Hc. subst io.
  rewrite refresh_cache_cached. by rewrite cache_fold_synced.
Qed.

(** X18.  Synchronising the cache with a snapshot of distinct invite codes
    stores every invite of the snapshot with its use count, inviter, channel
    and creation time, keeps the cached invites that the snapshot does not
    list, creates the cache when it was missing, and never touches the
    members' statistics. *)
Theorem cache_guild_invites_caches cur d (Hcodes : NoDup (code <$> cur)) :
  let d' := cache_guild_invites cur d in
  members d' = members d
  ∧ ∃ c', invites d' = Some c'
      ∧ (∀ inv, inv ∈ cur → c' !! code inv = Some (cache_entry inv))
      ∧ (∀ k, k ∉ code <$> cur → c' !! k = default ∅ (invites d) !! k).
Proof.
  intros d'. subst d'. unfold cache_guild_invites. cbn [members invites].
  split; [done|]. eexists. split; [done|]. split.
  - intros inv Hin. by apply cache_fold_present.
  - intros k Hk. by apply cache_fold_absent.
Qed.

Lemma cache_guild_invites_caches_witness :
  ∃ c', invites (cache_guild_invites snapshot_x1_y3 (Data None None)) = Some c'
      ∧ (∀ inv, inv ∈ snapshot_x1_y3 → c' !! code inv = Some (cache_entry inv)).
Proof.
  assert (NoDup (code <$> snapshot_x1_y3)) as Hnd.
  { cbn. apply NoDup_cons. split.
    - intros H. apply list_elem_of_singleton in H. discriminate H.
    - apply NoDup_singleton. }
  destruct (cache_guild_invites_caches snapshot_x1_y3 (Data None None) Hnd)
    as (_ & c' & H1 & H2 & _).
  exists c'. split; [exact H1|exact H2].
Defined.

(** X19.  A join that arrives right after a synchronisation, with the same
    invite list, is un-attributed: no invite counts as used, the handler
    finishes without error and the whole state is unchanged. *)
Theorem join_after_sync_unattributed m cur now env d
    (Hcodes : NoDup (code <$> cur)) :
  let d1 := cache_guild_invites cur d in
  find_used (default ∅ (invites d1)) cur = None
  ∧ handle_member_join_invite_tracking m cur now env d1 = (d1, Done None).
Proof.
  intros d1.
  assert (synced cur d1) as Hs.
  { subst d1. unfold cache_guild_invites. eexists. split; [done|].
    intros inv Hin. by apply cache_fold_present. }
  split; [|by apply join_synced].
  destruct Hs as (c & Hc & Hall). rewrite Hc. cbn [default].
  change (id c) with c. apply find_none_intro. intros inv Hin.
  apply bool_decide_eq_false. unfold cached_uses. rewrite (Hall inv Hin).
  cbn. unfold id. lia.
Qed.

Lemma join_after_sync_unattributed_witness :
  let d1 := cache_guild_invites snapshot_x1_y3 fresh_example in
  find_used (default ∅ (invites d1)) snapshot_x1_y3 = None
  ∧ handle_member_join_invite_tracking 77 snapshot_x1_y3 1000 quiet d1
    = (d1, Done None).
Proof.
  assert (NoDup (code <$> snapshot_x1_y3)) as Hnd.
  { cbn. apply NoDup_cons. split.
    - intros H. apply list_elem_of_singleton in H. discriminate H.
    - apply NoDup_singleton. }
  exact (join_after_sync_unattributed 77 snapshot_x1_y3 1000 quiet
           fresh_example Hnd).
Defined.

Lemma refresh_cache_done_synced cur d0 d1 :
  NoDup (code <$> cur) → cur ≠ [] →
  refresh_cache cur d0 = (d1, inr tt) → synced cur d1.
Proof.
  intros Hnd Hne. destruct d0 as [[c0|] mo].
  - rewrite refresh_cache_cached. intros [= <-].
    eexists. split; [done|]. intros inv Hin. by apply cache_fold_present.
  - rewrite refresh_cache_uncached by done. by destruct cur.
Qed.

Lemma join_done_synced m cur now env d d' a :
  NoDup (code <$> cur) → cur ≠ [] →
  handle_member_join_invite_tracking m cur now env d = (d', Done a) →
  synced cur d'.
Proof.
  intros Hnd Hne. rewrite handle_member_join_unfold. cbv zeta.
  assert (∀ d0 (o : outcome (option (Z * string))),
            match refresh_cache cur d0 with
            | (d1, inr _) => (d1, o)
            | (d1, inl e) => (d1, Logged e)
            end = (d', Done a) → synced cur d') as Hfin.
  { intros d0 o. destruct (refresh_cache cur d0) as [d1 [e|[]]] eqn:Hr.
    - intros H. discriminate H.
    - intros H. injection H as <- _. by eapply refresh_cache_done_synced. }
  destruct (find_used _ _) as [u|]; [|apply Hfin].
  destruct (inviter u) as [i|]; [|apply Hfin].
  destruct (attribute u i m now d) as [d0 [e|[]]]; [done|].
  destruct (after_attribution_cases i (i, code u) env cur d0)
    as [(_ & _ & ->)|(_ & _ & e & He)]; [apply Hfin|].
  intros H. rewrite H in He. discriminate He.
Qed.

Lemma join_empty_snapshot m now env d :
  handle_member_join_invite_tracking m [] now env d = (d, Done None).
Proof. by rewrite handle_member_join_unfold. Qed.

(** X20.  When the join handler has finished without error for a snapshot
    of distinct invite codes, handling a further join with the same
    snapshot attributes nothing and changes nothing: a join is only ever
    attributed to an invite whose count rose since the last completed
    call. *)
Theorem join_replay_unattributed m cur now env d d' a m' now' env'
    (Hcodes : NoDup (code <$> cur))
    (Hdone : handle_member_join_invite_tracking m cur now env d
             = (d', Done a)) :
  handle_member_join_invite_tracking m' cur now' env' d' = (d', Done None).
Proof.
  destruct (decide (cur = [])) as [->|Hne]; [apply join_empty_snapshot|].
  apply join_synced. by eapply join_done_synced.
Qed.

Lemma join_replay_unattributed_witness :
  let d' := (handle_member_join_invite_tracking 77 snapshot_x1_y3 1000 quiet
               fresh_example).1 in
  handle_member_join_invite_tracking 78 snapshot_x1_y3 2000 quiet d'
  = (d', Done None).
Proof.
  intros d'.
  assert (NoDup (code <$> snapshot_x1_y3)) as Hnd.
  { cbn. apply NoDup_cons. split.
    - intros H. apply list_elem_of_singleton in H. discriminate H.
    - apply NoDup_singleton. }
  assert (handle_member_join_invite_tracking 77 snapshot_x1_y3 1000 quiet
            fresh_example
          = (d', Done (Some (5, "x")))) as Hdone by reflexivity.
  exact (join_replay_unattributed 77 snapshot_x1_y3 1000 quiet fresh_example
           d' _ 78 2000 quiet Hnd Hdone).
Defined.

(** The leave handler changes nobody's total. *)
Lemma leave_total_invites m d j :
  member_of (handle_member_leave_invite_tracking m d) j ≫= total_invites
  = member_of d j ≫= total_invites.
Proof.
  unfold handle_member_leave_invite_tracking.
  destruct (invited_by _) as [i|]; [|done].
  destruct (decide (i = 0)); [done|].
  destruct (members d) as [ms|] eqn:E; [|done].
  destruct (ms !! i) as [r|] eqn:Hr; [|done].
  unfold member_of. rewrite E. cbn [members default].
  change (id ?x) with x.
  destruct (decide (i = j)) as [->|Hne].
  - rewrite lookup_insert_eq, Hr. done.
  - by rewrite lookup_insert_ne.
Qed.

Lemma step_total_invites d ev j :
  is_Some (members d) →
  member_of (step d ev) j ≫= total_invites = member_of d j ≫= total_invites
  ∧ is_Some (members (step d ev)).
Proof.
  intros [ms E]. destruct ev as [m cur now env|m]; cbn [step].
  - pose proof (join_members_kept m cur now env d ms E) as Hk.
    unfold member_of. rewrite Hk, E. eauto.
  - split; [apply leave_total_invites|].
    apply leave_members_is_Some. eauto.
Qed.

Lemma run_total_invites d evs j :
  is_Some (members d) →
  member_of (run d evs) j ≫= total_invites = member_of d j ≫= total_invites
  ∧ is_Some (members (run d evs)).
Proof.
  revert d. induction evs as [|ev evs IH]; intros d H; [done|].
  cbn [run foldl]. destruct (step_total_invites d ev j H) as [Hf Hs].
  fold (run (step d ev) evs). destruct (IH _ Hs) as [H1 H2].
  split; [by rewrite H1|done].
Qed.

(** X21.  Once the members table exists, in particular after the first
    attributed join, no sequence of joins and leaves ever attributes a join
    again: every later call of the join handler ends un-attributed or with
    a logged error, and every member's total invites stay what they
    were. *)
Theorem join_never_attributed_again d evs m cur now env j
    (Hmembers : is_Some (members d)) :
  let d1 := run d evs in
  is_Some (members d1)
  ∧ (∀ a, (handle_member_join_invite_tracking m cur now env d1).2 = Done a →
          a = None)
  ∧ member_of d1 j ≫= total_invites = member_of d j ≫= total_invites.
Proof.
  intros d1. destruct (run_total_invites d evs j Hmembers) as [Ht Hs].
  split; [done|]. split; [|done].
  intros [[i c]|] Ha; [|done]. exfalso.
  destruct (handle_member_join_invite_tracking m cur now env d1)
    as [d2 o] eqn:E.
  cbn [snd] in Ha. subst o.
  apply join_attributed_inv in E as [Hn _].
  subst d1. rewrite Hn in Hs. by destruct Hs.
Qed.

Lemma join_never_attributed_again_witness :
  let d1 := run tracked_example
              [Join 78 snapshot_x1_y3 2000 quiet; Leave 77] in
  is_Some (members d1)
  ∧ (∀ a, (handle_member_join_invite_tracking 79 snapshot_z1 3000 quiet d1).2
          = Done a → a = None)
  ∧ member_of d1 5 ≫= total_invites = member_of tracked_example 5 ≫= total_invites.
Proof.
  assert (is_Some (members tracked_example)) as Hm by (by eexists).
  exact (join_never_attributed_again tracked_example
           [Join 78 snapshot_x1_y3 2000 quiet; Leave 77] 79 snapshot_z1 3000
           quiet 5 Hm).
Defined.

(** X22.  Starting from a guild without members table, after any sequence
    of joins and leaves every recorded inviter has a record of their own,
    so the leave handler always finds the inviter it has to update. *)
Theorem inviters_always_recorded d evs (Hfresh : members d = None) :
  inviters_recorded (run d evs).
Proof. by apply run_inviters_recorded, fresh_inviters_recorded. Qed.

Lemma inviters_always_recorded_witness :
  inviters_recorded
    (run fresh_example [Join 77 snapshot_x1 1000 quiet; Leave 77;
                        Join 78 snapshot_x1_y3 2000 quiet]).
Proof. exact (inviters_always_recorded fresh_example _ eq_refl). Defined.

(** X23.  Starting from a guild without members table, whatever joins and
    leaves follow, at most one member ever holds inviter statistics, and
    that member's total invites are 1. *)
Theorem at_most_one_attribution d evs (Hfresh : members d = None) :
  ∃ i, ∀ j,
    member_of (run d evs) j ≫= total_invites = None
    ∨ (j = i ∧ member_of (run d evs) j ≫= total_invites = Some 1).
Proof.
  revert d Hfresh. induction evs as [|ev evs IH]; intros d Hfresh.
  { exists 0. intros j. left. cbn [run foldl]. unfold member_of.
    rewrite Hfresh. cbn [default]. change (id ?x) with x.
    by rewrite lookup_empty. }
  cbn [run foldl]. fold (run (step d ev) evs).
  destruct (members (step d ev)) as [ms|] eqn:E; [|by apply IH].
  assert (∃ i, ∀ j,
            member_of (step d ev) j ≫= total_invites = None
            ∨ (j = i ∧ member_of (step d ev) j ≫= total_invites = Some 1))
    as [i Hi].
  { destruct ev as [m cur now env|m]; cbn [step] in *.
    - destruct (join_fresh_members m cur now env d Hfresh)
        as [Hn|(u & i & _ & _ & _ & Hm)]; [congruence|].
      exists i. intros j. unfold member_of. rewrite Hm. cbn [default].
      change (id ?x) with x.
      destruct (decide (i = m)) as [->|Hne].
      + destruct (decide (j = m)) as [->|Hj].
        * right. by rewrite lookup_insert_eq.
        * left. by rewrite lookup_insert_ne, lookup_empty.
      + destruct (decide (j = m)) as [->|Hj].
        * left. by rewrite lookup_insert_eq.
        * rewrite lookup_insert_ne by done.
          destruct (decide (j = i)) as [->|Hji].
          -- right. by rewrite lookup_insert_eq.
          -- left. by rewrite lookup_insert_ne, lookup_empty.
    - rewrite leave_without_inviter in E; [congruence|].
      unfold member_of. rewrite Hfresh. cbn [default].
      change (id ?x) with x. by rewrite lookup_empty. }
  exists i. intros j.
  destruct (run_total_invites (step d ev) evs j) as [-> _];
    [by rewrite E|]. apply Hi.
Qed.

Lemma at_most_one_attribution_witness :
  ∃ i, ∀ j,
    member_of (run fresh_example
                 [Join 77 snapshot_x1 1000 quiet;
                  Join 78 snapshot_x1_y3 2000 quiet]) j
      ≫= total_invites = None
    ∨ (j = i
       ∧ member_of (run fresh_example
                      [Join 77 snapshot_x1 1000 quiet;
                       Join 78 snapshot_x1_y3 2000 quiet]) j
           ≫= total_invites = Some 1).
Proof. exact (at_most_one_attribution fresh_example _ eq_refl). Defined.

(** The search loop, one more configured threshold at a time. *)
Lemma find_target_snoc count cfg item :
  find_target count (cfg ++ [item])
  = if bool_decide (count >= item.1)
       && bool_decide (item.1 > (find_target count cfg).2)
    then (Some item.2, item.1) else find_target count cfg.
Proof. unfold find_target. by rewrite foldl_snoc. Qed.

Lemma find_target_spec count (cfg : list (Z * Z)) :
  let res := find_target count cfg in
  0 ≤ res.2
  ∧ (∀ item, item ∈ cfg → item.1 ≤ count → item.1 ≤ res.2)
  ∧ match res.1 with
    | Some role => (res.2, role) ∈ cfg ∧ 0 < res.2 ≤ count
    | None => res.2 = 0
    end.
Proof.
  induction cfg as [|item cfg IH] using rev_ind.
  { cbn. split; [done|]. split; [|done]. intros item Hin.
    by apply elem_of_nil in Hin. }
  cbv zeta in *. rewrite find_target_snoc.
  destruct IH as (H0 & Hmax & Hsel).
  destruct (bool_decide (count >= item.1)) eqn:E1; cbn [andb].
  - apply bool_decide_eq_true in E1.
    destruct (bool_decide (item.1 > (find_target count cfg).2)) eqn:E2.
    + apply bool_decide_eq_true in E2. cbn [fst snd].
      split; [lia|]. split.
      * intros it [Hin|Hin]%elem_of_app Hle.
        -- specialize (Hmax it Hin Hle). lia.
        -- apply list_elem_of_singleton in Hin as ->. lia.
      * split; [|lia]. apply elem_of_app. right.
        apply list_elem_of_singleton. by destruct item.
    + apply bool_decide_eq_false in E2.
      split; [done|]. split.
      * intros it [Hin|Hin]%elem_of_app Hle; [by apply Hmax|].
        apply list_elem_of_singleton in Hin as ->. lia.
      * destruct (find_target count cfg).1; [|done].
        destruct Hsel as [Hin ?]. split; [|done].
        apply elem_of_app. by left.
  - apply bool_decide_eq_false in E1.
    split; [done|]. split.
    + intros it [Hin|Hin]%elem_of_app Hle; [by apply Hmax|].
      apply list_elem_of_singleton in Hin as ->. lia.
    + destruct (find_target count cfg).1; [|done].
      destruct Hsel as [Hin ?]. split; [|done].
      apply elem_of_app. by left.
Qed.

(** X24.  The milestone search selects the role configured for the highest
    positive threshold that the invite count reaches, and no role when the
    count reaches none; a higher count never selects a lower threshold. *)
Theorem find_target_highest_reached count count' (cfg : list (Z * Z))
    (Hle : count ≤ count') :
  let res := find_target count cfg in
  (∀ item, item ∈ cfg → 0 < item.1 ≤ count → item.1 ≤ res.2 ∧ is_Some res.1)
  ∧ match res.1 with
    | Some role => (res.2, role) ∈ cfg ∧ 0 < res.2 ≤ count
    | None => ∀ item, item ∈ cfg → ¬ 0 < item.1 ≤ count
    end
  ∧ res.2 ≤ (find_target count' cfg).2.
Proof.
  intros res. subst res.
  destruct (find_target_spec count cfg) as (H0 & Hmax & Hsel).
  destruct (find_target_spec count' cfg) as (H0' & Hmax' & Hsel').
  cbv zeta in *.
  split; [|split].
  - intros item Hin [Hpos Hc]. specialize (Hmax item Hin Hc).
    split; [done|].
    destruct (find_target count cfg).1; [by eexists|]. lia.
  - destruct (find_target count cfg).1 as [role|]; [done|].
    intros item Hin [Hpos Hc]. specialize (Hmax item Hin Hc). lia.
  - destruct (find_target count cfg).1 as [role|]; [|lia].
    destruct Hsel as [Hin [? ?]].
    apply (Hmax' _ Hin). cbn. lia.
Qed.

Lemma find_target_highest_reached_witness :
  (find_target 7 [(5, 50); (10, 100); (1, 10)]).2
  ≤ (find_target 12 [(5, 50); (10, 100); (1, 10)]).2.
Proof.
  assert (7 ≤ 12) as Hle by lia.
  exact (proj2 (proj2 (find_target_highest_reached 7 12
                         [(5, 50); (10, 100); (1, 10)] Hle))).
Defined.

(** X25.  The milestone update adds a role exactly when the role selected
    by the search is not 0, exists in the guild and is not yet held by the
    member, and then it is the selected role that is added; in every other
    case (nothing configured, no threshold reached, role missing in the
    guild, role already held) it asks for nothing at all.  When it adds the
    role, the roles it removes are exactly the roles of the guild that the
    member holds and that are configured for a threshold strictly below the
    selected one. *)
Theorem update_member_invite_roles_requests d cfg guild_roles member_id
    member_roles :
  let req := update_member_invite_roles d cfg guild_roles member_id
               member_roles in
  let count := default 0 (member_of d member_id ≫= total_invites) in
  let res := find_target count cfg in
  (∀ target, added req = Some target
             ↔ res.1 = Some target ∧ target ≠ 0 ∧ target ∈ guild_roles
               ∧ target ∉ member_roles)
  ∧ (added req = None → removed req = [])
  ∧ (∀ r, r ∈ removed req
          ↔ is_Some (added req) ∧ r ∈ guild_roles ∧ r ∈ member_roles
            ∧ ∃ threshold, (threshold, r) ∈ cfg ∧ threshold < res.2).
Proof.
  intros req count res. subst req res. unfold update_member_invite_roles.
  assert (default 0 (total_invites
                       (default empty_rec (default ∅ (members d) !! member_id)))
          = count) as ->.
  { subst count. unfold member_of.
    by destruct (default ∅ (members d) !! member_id). }
  destruct (bool_decide (cfg = [])) eqn:Ecfg.
  { apply bool_decide_eq_true in Ecfg. subst cfg. cbn [added removed].
    split; [|split; [done|]].
    - intros target. split; [done|]. by intros [? _].
    - intros r. split; [by intros ?%elem_of_nil|]. by intros [[? ?] _]. }
  destruct (find_target count cfg) as [[target|] cur] eqn:Ef; cbn [fst snd].
  2:{ cbn [added removed]. split; [|split; [done|]].
      - intros target. split; [done|]. by intros [? _].
      - intros r. split; [by intros ?%elem_of_nil|]. by intros [[? ?] _]. }
  destruct (bool_decide (target ≠ 0) && bool_decide (target ∈ guild_roles)
            && negb (bool_decide (target ∈ member_roles))) eqn:Ec;
    cbn [added removed].
  - apply andb_true_iff in Ec as [[Hz%bool_decide_eq_true
                                     Hg%bool_decide_eq_true]%andb_true_iff Hm].
    apply negb_true_iff, bool_decide_eq_false in Hm.
    split; [|split; [done|]].
    + intros t. split.
      * by intros [= <-].
      * by intros [[= <-] _].
    + intros r. split.
      * intros ([th r'] & -> & Hin)%list_elem_of_fmap.
        apply list_elem_of_filter in Hin as [(Hlt & Hgr & Hheld) Hin].
        cbn [fst snd] in *. split; [by eexists|]. split; [done|].
        split; [done|]. by exists th.
      * intros (_ & Hgr & Hheld & th & Hin & Hlt).
        apply list_elem_of_fmap. exists (th, r). split; [done|].
        apply list_elem_of_filter. by split.
  - split; [|split; [done|]].
    + intros t. split; [done|]. intros ([= <-] & Hz & Hg & Hm).
      apply andb_false_iff in Ec as [[Hf|Hf]%andb_false_iff|Hf].
      * by apply bool_decide_eq_false in Hf.
      * by apply bool_decide_eq_false in Hf.
      * apply negb_false_iff, bool_decide_eq_true in Hf. done.
    + intros r. split; [by intros ?%elem_of_nil|]. by intros [[? ?] _].
Qed.

Lemma update_member_invite_roles_requests_witness :
  let d := Data None (Some {[5 := Member (Some 7) (Some 0) (Some [])
                                         None None None]}) in
  added (update_member_invite_roles d [(5, 50); (10, 100); (1, 10)]
           {[10; 50; 100]} 5 [10]) = Some 50
  ∧ 10 ∈ removed (update_member_invite_roles d [(5, 50); (10, 100); (1, 10)]
                    {[10; 50; 100]} 5 [10])
  ∧ added (update_member_invite_roles d [(5, 99)] {[10; 50; 100]} 5 [10])
    = None.
Proof.
  intros d.
  destruct (update_member_invite_roles_requests d [(5, 50); (10, 100); (1, 10)]
              {[10; 50; 100]} 5 [10]) as (Ha & _ & Hr).
  split; [|split].
  - apply Ha. split; [reflexivity|]. split; [done|].
    split; [set_solver|]. intros H. apply list_elem_of_singleton in H. done.
  - apply Hr. split; [by eexists|]. split; [set_solver|].
    split; [by apply list_elem_of_singleton|]. exists 1.
    split; [|done]. do 2 apply list_elem_of_further. apply list_elem_of_here.
  - reflexivity.
Defined.

(** X26.  A member leaving never changes the milestone role requested for
    anybody: the milestone is computed from the total invites, which a
    leave does not touch, so roles earned are not taken back. *)
Theorem leave_keeps_milestone m d cfg guild_roles member_id member_roles :
  update_member_invite_roles (handle_member_leave_invite_tracking m d) cfg
    guild_roles member_id member_roles
  = update_member_invite_roles d cfg guild_roles member_id member_roles.
Proof.
  pose proof (leave_total_invites m d member_id) as Ht.
  unfold update_member_invite_roles.
  assert (∀ d0, default 0 (total_invites
                   (default empty_rec (default ∅ (members d0) !! member_id)))
                = default 0 (member_of d0 member_id ≫= total_invites)) as Hc.
  { intros d0. unfold member_of.
    by destruct (default ∅ (members d0) !! member_id). }
  by rewrite !Hc, Ht.
Qed.

End InviteOpsFacts.

(* ===================================================================== *)
(** * Endings without winners, and the shadowed selection loop *)
(* ===================================================================== *)

Section EndEdgeFacts.
Import Giveaway GiveawayOps.
Implicit Types (data : gmap string giveaway) (gid : string) (g : giveaway).

(** X27.  When the giveaway's channel is not found, or nobody joined, the
    giveaway is marked ended and nothing else about it changes: no winners
    list is stored, and no later call of [end_giveaway] stores one, even
    with the channel back and participants on record. *)
Theorem end_giveaway_without_winners data gid g channel_found draws
    (Hg : data !! gid = Some g) (Hactive : gstatus g = Active)
    (Hcase : channel_found = false ∨ participants g = []) :
  let res := end_giveaway data gid channel_found draws in
  res.1 = <[gid := set_status Ended g]> data
  ∧ (res.2 = NoChannel ∨ res.2 = NoParticipants)
  ∧ ∀ channel_found' draws',
      end_giveaway res.1 gid channel_found' draws' = (res.1, AlreadyEnded).
Proof.
  intros res.
  assert (res.1 = <[gid := set_status Ended g]> data
          ∧ (res.2 = NoChannel ∨ res.2 = NoParticipants)) as [H1 H2].
  { subst res. unfold end_giveaway. rewrite Hg.
    rewrite bool_decide_eq_true_2 by done. cbn [negb].
    destruct channel_found; cbn [negb].
    - destruct Hcase as [|Hp]; [done|].
      cbn [participants set_status]. rewrite bool_decide_eq_true_2 by done.
      split; [done|by right].
    - split; [done|by left]. }
  split; [done|]. split; [done|].
  intros ch' d'. apply end_giveaway_guard. intros g1.
  rewrite H1, lookup_insert_eq. by intros [= <-].
Qed.

Lemma end_giveaway_without_winners_witness :
  let res := end_giveaway data_example "gw" false [] in
  res.1 = <["gw" := set_status Ended giveaway_example]> data_example
  ∧ (res.2 = NoChannel ∨ res.2 = NoParticipants)
  ∧ ∀ channel_found' draws',
      end_giveaway res.1 "gw" channel_found' draws' = (res.1, AlreadyEnded).
Proof.
  assert (data_example !! "gw" = Some giveaway_example) as Hg by reflexivity.
  assert (gstatus giveaway_example = Active) as Ha by reflexivity.
  assert (false = false ∨ participants giveaway_example = []) as Hc by (by left).
  exact (end_giveaway_without_winners data_example "gw" giveaway_example
           false [] Hg Ha Hc).
Defined.

(** X28.  The selection loop of the earlier, shadowed definition of
    [end_giveaway], run on the weighted pool of a well-formed giveaway,
    returns exactly [min(winners, number of participants)] pairwise distinct
    participants, whatever the draws. *)
Theorem shadowed_selection_exact g draws (Hwf : well_formed g) :
  let ws := choose_winners (Z.to_nat (wanted_winners g))
              (weighted_participants (participants g)) [] draws in
  NoDup ws
  ∧ Z.of_nat (length ws) = wanted_winners g
  ∧ ∀ w, w ∈ ws → w ∈ dict_keys (participants g).
Proof.
  destruct Hwf as (Hd & Hp & _ & Hw).
  apply choose_winners_exact; [done|done|lia].
Qed.

Lemma shadowed_selection_exact_witness :
  let ws := choose_winners (Z.to_nat (wanted_winners giveaway_example))
              (weighted_participants (participants giveaway_example)) []
              [1%nat; 0%nat] in
  NoDup ws
  ∧ Z.of_nat (length ws) = wanted_winners giveaway_example
  ∧ ∀ w, w ∈ ws → w ∈ dict_keys (participants giveaway_example).
Proof.
  exact (shadowed_selection_exact giveaway_example [1%nat; 0%nat]
           (data_example_well_formed "gw" giveaway_example eq_refl)).
Defined.

(** X29.  When the guild is not found the sweep ends nothing and changes
    nothing, however many giveaways are due. *)
Theorem check_giveaways_without_guild now env data
    (Hguild : guild_found env = false) :
  check_giveaways now env data = (data, None).
Proof.
  unfold check_giveaways. induction (map_to_list data).*1 as [|x items IH];
    [done|].
  cbn [sweep_loop]. destruct (data !! x) as [g|]; [|done].
  by rewrite Hguild, andb_false_r.
Qed.

Lemma check_giveaways_without_guild_witness :
  check_giveaways 150 (SweepEnv false (fun _ => true) (fun _ => [])) data_example
  = (data_example, None).
Proof.
  exact (check_giveaways_without_guild 150
           (SweepEnv false (fun _ => true) (fun _ => [])) data_example eq_refl).
Defined.

End EndEdgeFacts.
